(** * Menu generator (App.tsx): a shallow embedding and its verified properties

    The program is a single React component file.  Its logic is embedded
    here function by function:

    - JavaScript numbers are IEEE-754 binary64 values; they are modelled by
      the Standard Library's [spec_float] at precision 53 and maximal
      exponent 1024, with the library's correctly rounded operations.
    - JavaScript strings are modelled by [string]; the two regular
      expressions of the program are single character classes replaced
      globally.
    - React state setters are modelled by explicit state passing; browser
      services (layout measurement, local storage, JSON.parse, the
      screenshot library, the clock) are fields of explicit host records.
*)

From Stdlib Require Import ZArith Lia List Bool Ascii String DecimalString.
From Stdlib Require Import Floats.SpecFloat.
Import ListNotations.

#[local] Set Warnings "-register-all".

Local Open Scope list_scope.
Local Open Scope string_scope.
Local Open Scope Z_scope.

(* ================================================================= *)
(** * Part I: the embedding *)
(* ================================================================= *)

(** ** JavaScript numbers *)

Module JS.

Definition number := spec_float.

Definition prec : Z := 53.
Definition emax : Z := 1024.

(** The Number value for a mathematical integer (round to nearest, ties
    to even), as an integer literal or an integer-valued DOM attribute
    denotes it. *)
Definition of_Z (z : Z) : number := binary_normalize prec emax z 0 false.

Definition NaN : number := S754_nan.
Definition Infinity : number := S754_infinity false.

Definition add (x y : number) : number := SFadd prec emax x y.
Definition sub (x y : number) : number := SFsub prec emax x y.
Definition mul (x y : number) : number := SFmul prec emax x y.
Definition div (x y : number) : number := SFdiv prec emax x y.

(** [x < y], [x <= y], [x > y]: false as soon as an operand is NaN. *)
Definition lt (x y : number) : bool := SFltb x y.
Definition le (x y : number) : bool := SFleb x y.
Definition gt (x y : number) : bool := SFltb y x.

Definition is_nan (x : number) : bool :=
  match x with S754_nan => true | _ => false end.

(** [Number.isFinite]. *)
Definition isFinite (x : number) : bool :=
  match x with
  | S754_zero _ | S754_finite _ _ _ => true
  | S754_infinity _ | S754_nan => false
  end.

(** ToBoolean on a number: [+0], [-0] and [NaN] are falsy. *)
Definition truthy (x : number) : bool :=
  match x with
  | S754_zero _ | S754_nan => false
  | _ => true
  end.

(** [x || y] on numbers. *)
Definition or_else (x y : number) : number := if truthy x then x else y.

(** [Math.round]: the integral number closest to [x], ties towards
    +Infinity; NaN, the infinities and the zeros are returned as they
    are, and a result of zero keeps the sign of [x]. *)
Definition Math_round (x : number) : number :=
  match x with
  | S754_finite s m e =>
      if 0 <=? e then x
      else binary_normalize prec emax
             ((2 * cond_Zopp s (Zpos m) + 2 ^ (- e)) / (2 * 2 ^ (- e))) 0 s
  | _ => x
  end.

(** [Math.max] and [Math.min] (ECMAScript 21.3.2.24 and .25): NaN wins,
    then the running extremum is replaced by a strictly better value,
    [+0] counting as larger than [-0]. *)
Definition max_step (highest v : number) : number :=
  match highest, v with
  | S754_zero true, S754_zero false => v
  | _, _ => if gt v highest then v else highest
  end.

Definition min_step (lowest v : number) : number :=
  match lowest, v with
  | S754_zero false, S754_zero true => v
  | _, _ => if lt v lowest then v else lowest
  end.

Definition Math_max (args : list number) : number :=
  if existsb is_nan args then NaN
  else fold_left max_step args (S754_infinity true).

Definition Math_min (args : list number) : number :=
  if existsb is_nan args then NaN
  else fold_left min_step args (S754_infinity false).

(** The mathematical integer a number denotes, when it denotes one. *)
Definition integer_value (x : number) : option Z :=
  match x with
  | S754_zero _ => Some 0
  | S754_finite s m e =>
      if 0 <=? e then Some (cond_Zopp s (Zpos m * 2 ^ e))
      else if Zpos m mod 2 ^ (- e) =? 0
           then Some (cond_Zopp s (Zpos m / 2 ^ (- e)))
           else None
  | _ => None
  end.

End JS.

(** ** JavaScript strings and the two regular expressions *)

Module Str.

(** A character class of a regular expression. *)
Inductive char_class : Type :=
| Digit                              (* \d *)
| OneOf (cs : list ascii)            (* [abc] *)
| Not (c : char_class).              (* [^...] *)

Definition is_digit (a : ascii) : bool :=
  let n := N_of_ascii a in (48 <=? n)%N && (n <=? 57)%N.

Fixpoint class_matches (c : char_class) (a : ascii) : bool :=
  match c with
  | Digit => is_digit a
  | OneOf cs => existsb (Ascii.eqb a) cs
  | Not c' => negb (class_matches c' a)
  end.

(** [s.replace(/C/g, repl)] for a one-character class [C]. *)
Fixpoint replace_all (c : char_class) (repl : string) (s : string) : string :=
  match s with
  | EmptyString => EmptyString
  | String a rest =>
      if class_matches c a
      then repl ++ replace_all c repl rest
      else String a (replace_all c repl rest)
  end.

(** [s.slice(0, n)]. *)
Definition slice0 (n : nat) (s : string) : string := substring 0 n s.

Definition all_digits (s : string) : bool :=
  forallb is_digit (list_ascii_of_string s).

Definition digit_value (a : ascii) : Z := Z.of_N (N_of_ascii a) - 48.

(** The natural number a string of decimal digits denotes (0 for the
    empty string), read left to right. *)
Fixpoint decimal_from (acc : Z) (s : string) : Z :=
  match s with
  | EmptyString => acc
  | String a rest => decimal_from (10 * acc + digit_value a) rest
  end.

Definition decimal_value (s : string) : Z := decimal_from 0 s.

(** [Number(s)] on the strings this program converts: the empty string
    is [+0], a string of decimal digits is the number nearest to the
    integer it denotes (engines round correctly; ECMAScript lets them
    approximate only beyond the 20th significant digit).  The program
    only converts results of [sanitizeDigits]; any other string is mapped
    to NaN here. *)
Definition Number (s : string) : JS.number :=
  if all_digits s then JS.of_Z (decimal_value s) else JS.NaN.

(** Subsequence of a string, as lists of characters. *)
Inductive subseq : list ascii -> list ascii -> Prop :=
| subseq_nil : subseq [] []
| subseq_keep a l1 l2 : subseq l1 l2 -> subseq (a :: l1) (a :: l2)
| subseq_drop a l1 l2 : subseq l1 l2 -> subseq l1 (a :: l2).

End Str.

(** ** Constants, menu items and the pure helpers of App.tsx *)

Definition TAX_RATE : JS.number := JS.div (JS.of_Z 1) (JS.of_Z 10).
Definition PAGE_WIDTH : Z := 794.
Definition PAGE_HEIGHT : Z := 1123.
Definition DEFAULT_SHADOW_COLOR : string := "#57e8ff".
Definition COLOR_HISTORY_KEY : string := "menu_generator_shadow_history".
Definition MAX_COLOR_HISTORY : nat := 8.

Record MenuItem : Type := {
  id : string;
  name : string;
  price : string
}.

Record ComputedMenuItem : Type := {
  item : MenuItem;
  priceValue : JS.number;
  taxIncluded : JS.number
}.

Definition initialItems : list MenuItem :=
  [ {| id := "item-1"; name := "メニュー１"; price := "980" |};
    {| id := "item-2"; name := "メニュー２"; price := "888" |} ].

(** [value.replace(/[^\d]/g, '')] *)
Definition sanitizeDigits (value : string) : string :=
  Str.replace_all (Str.Not Str.Digit) "" value.

(** [value > 0 ? Math.round(value * (1 + TAX_RATE)) : 0] *)
Definition getTaxIncluded (value : JS.number) : JS.number :=
  if JS.gt value (JS.of_Z 0)
  then JS.Math_round (JS.mul value (JS.add (JS.of_Z 1) TAX_RATE))
  else JS.of_Z 0.

(** The claim's wording of the tax-inclusive amount, over the integers:
    round(P * 1.1) with halves upwards, that is the floor of
    11P/10 + 1/2, when P > 0, and 0 when P = 0. *)
Definition spec_taxIncluded (P : Z) : Z :=
  if 0 <? P then (11 * P + 5) / 10 else 0.

(** One element of [computedItems]. *)
Definition computeItem (it : MenuItem) : ComputedMenuItem :=
  let priceValue := JS.or_else (Str.Number (sanitizeDigits (price it))) (JS.of_Z 0) in
  {| item := it; priceValue := priceValue; taxIncluded := getTaxIncluded priceValue |}.

Definition computedItems (items : list MenuItem) : list ComputedMenuItem :=
  map computeItem items.

(** [handleNameChange(id)(event)] and [handlePriceChange(id)(event)], as
    the state updates they pass to [setItems]. *)
Definition handleNameChange (target value : string) (prev : list MenuItem)
  : list MenuItem :=
  map (fun it => if String.eqb (id it) target
                 then {| id := id it; name := value; price := price it |}
                 else it) prev.

Definition handlePriceChange (target value : string) (prev : list MenuItem)
  : list MenuItem :=
  let digitsOnly := sanitizeDigits value in
  map (fun it => if String.eqb (id it) target
                 then {| id := id it; name := name it; price := digitsOnly |}
                 else it) prev.

(** The input events of the form, and the item states they reach. *)
Inductive form_event : Type :=
| NameChange (target value : string)
| PriceChange (target value : string).

Definition apply_event (items : list MenuItem) (ev : form_event) : list MenuItem :=
  match ev with
  | NameChange t v => handleNameChange t v items
  | PriceChange t v => handlePriceChange t v items
  end.

Definition run_events (evs : list form_event) : list MenuItem :=
  fold_left apply_event evs initialItems.

(** ** Effects: completions, and computations over a world

    A JavaScript statement list either completes normally or throws; a
    computation threads the mutable world it acts on.  [try_catch] and
    [try_finally] are the two halves of [try { } catch { } finally { }]. *)

Inductive error : Type := Error (message : string).

Inductive completion (A : Type) : Type :=
| Normal (a : A)
| Throw (e : error).
Arguments Normal {A} a.
Arguments Throw {A} e.

Definition M (W A : Type) : Type := W -> completion A * W.

Definition ret {W A : Type} (a : A) : M W A := fun w => (Normal a, w).

Definition bind {W A B : Type} (c : M W A) (k : A -> M W B) : M W B :=
  fun w => match c w with
           | (Normal a, w') => k a w'
           | (Throw e, w') => (Throw e, w')
           end.

Definition lift {W A : Type} (c : completion A) : M W A := fun w => (c, w).

Definition get {W : Type} : M W W := fun w => (Normal w, w).

Definition modify {W : Type} (f : W -> W) : M W unit := fun w => (Normal tt, f w).

Definition try_catch {W A : Type} (body : M W A) (handler : error -> M W A) : M W A :=
  fun w => match body w with
           | (Normal a, w') => (Normal a, w')
           | (Throw e, w') => handler e w'
           end.

(** The [finally] block runs on both paths; when it completes normally the
    completion of the protected block stands. *)
Definition try_finally {W A : Type} (body : M W A) (final : M W unit) : M W A :=
  fun w => match body w with
           | (c, w') => match final w' with
                        | (Normal _, w'') => (c, w'')
                        | (Throw e, w'') => (Throw e, w'')
                        end
           end.

Declare Scope js_scope.
Delimit Scope js_scope with js.
Notation "x <- c1 ;; c2" := (bind c1 (fun x => c2))
  (at level 61, c1 at next level, right associativity) : js_scope.
Notation "c1 ;;; c2" := (bind c1 (fun _ => c2))
  (at level 61, right associativity) : js_scope.

(** ** The auto-fit text sizer: [useAutoFitText] and its [fit] callback *)

(** The parent box as [fit] reads it: [clientHeight] and the two paddings
    after [parseFloat(... || '0')]. *)
Record ParentBox : Type := {
  clientHeight : Z;
  paddingTop : JS.number;
  paddingBottom : JS.number
}.

(** The text node: its inline font size in px ([node.style.fontSize],
    absent until first set) and its parent element. *)
Record TextNode : Type := {
  style_fontSize : option Z;
  parentElement : option ParentBox
}.

Definition set_fontSize (node : TextNode) (px : Z) : TextNode :=
  {| style_fontSize := Some px; parentElement := parentElement node |}.

Definition availableHeight (parent : ParentBox) : JS.number :=
  JS.sub (JS.of_Z (clientHeight parent))
         (JS.add (paddingTop parent) (paddingBottom parent)).

Section AutoFit.

(** Synchronous layout: [node.scrollHeight] as the browser reports it for
    the node in its current state. *)
Variable scrollHeight : TextNode -> JS.number.

(** The [while (low <= high)] loop.  Each iteration assigns the probe size
    to the node and measures it.  [None] only when [fuel] iterations did
    not reach [low > high]. *)
Fixpoint fit_loop (fuel : nat) (available : JS.number) (node : TextNode)
         (low high best : Z) : option (TextNode * Z) :=
  match fuel with
  | O => None
  | S fuel' =>
      if low <=? high then
        let mid := (low + high) / 2 in
        let node := set_fontSize node mid in
        if JS.le (scrollHeight node) available
        then fit_loop fuel' available node (mid + 1) high mid
        else fit_loop fuel' available node low (mid - 1) best
      else Some (node, best)
  end.

(** Iterations that always suffice for the range [low..high]. *)
Definition fit_fuel (low high : Z) : nat := S (Z.to_nat (high - low + 1)).

(** [fit] on a mounted text node ([textRef.current] non-null), with the
    [min] and [max] options.  The result is the node afterwards; it is
    unchanged on the two early returns. *)
Definition fit (min max : Z) (node : TextNode) : option TextNode :=
  match parentElement node with
  | None => Some node
  | Some parent =>
      let available := availableHeight parent in
      if negb (JS.truthy available) || JS.le available (JS.of_Z 0)
      then Some node
      else
        match fit_loop (fit_fuel min max) available node min max min with
        | Some (node', best) => Some (set_fontSize node' best)
        | None => None
        end
  end.

End AutoFit.

(** ** The page scale fitter: [updateScale] *)

(** The preview stage as [updateScale] reads it: its client size and the
    four computed paddings after [parseFloat]. *)
Record Stage : Type := {
  stage_clientWidth : Z;
  stage_clientHeight : Z;
  stage_paddingLeft : JS.number;
  stage_paddingRight : JS.number;
  stage_paddingTop : JS.number;
  stage_paddingBottom : JS.number
}.

Definition stage_availableWidth (stage : Stage) : JS.number :=
  let paddingX := JS.add (stage_paddingLeft stage) (stage_paddingRight stage) in
  JS.Math_max [JS.of_Z 0; JS.sub (JS.of_Z (stage_clientWidth stage)) paddingX].

Definition stage_availableHeight (stage : Stage) : JS.number :=
  let paddingY := JS.add (stage_paddingTop stage) (stage_paddingBottom stage) in
  JS.Math_max [JS.of_Z 0; JS.sub (JS.of_Z (stage_clientHeight stage)) paddingY].

(** The value handed to [setPageScale], from the two available extents. *)
Definition scaleFor (availableWidth availableHeight : JS.number) : JS.number :=
  let widthRatio := JS.div availableWidth (JS.of_Z PAGE_WIDTH) in
  let heightRatio := JS.div availableHeight (JS.of_Z PAGE_HEIGHT) in
  let nextScale := JS.Math_min [JS.of_Z 1; widthRatio; heightRatio] in
  if JS.isFinite nextScale && JS.gt nextScale (JS.of_Z 0)
  then nextScale
  else JS.of_Z 1.

(** [updateScale]: the new [pageScale] state.  [stage] is
    [previewStageRef.current]; [page] tells whether [previewRef.current]
    is mounted.  Without both the state is left as it is. *)
Definition updateScale (stage : option Stage) (page : bool) (pageScale : JS.number)
  : JS.number :=
  match stage, page with
  | Some st, true => scaleFor (stage_availableWidth st) (stage_availableHeight st)
  | _, _ => pageScale
  end.

(** The page scales reachable from the initial state [useState(1)]. *)
Definition run_updateScale (observations : list (option Stage * bool)) : JS.number :=
  fold_left (fun s o => updateScale (fst o) (snd o) s) observations (JS.of_Z 1).

(** The claim's wording of the scale, for comparison with [scaleFor]. *)
Definition spec_scale (W H : JS.number) : JS.number :=
  let v := JS.Math_min [JS.of_Z 1; JS.div W (JS.of_Z 794); JS.div H (JS.of_Z 1123)] in
  if JS.isFinite v && JS.gt v (JS.of_Z 0) then v else JS.of_Z 1.

(** ** The color history: [loadColorHistory] and [commitColorToHistory] *)

(** The values [JSON.parse] can return. *)
Inductive json : Type :=
| JNull
| JBool (b : bool)
| JNumber (n : JS.number)
| JString (s : string)
| JArray (elems : list json)
| JObject (fields : list (string * json)).

(** The browser services [loadColorHistory] calls.  [window] is absent
    when [typeof window === 'undefined']; [getItem] answers [null] as
    [None] and may throw (storage access denied); [JSON_parse] throws a
    SyntaxError on text that is not JSON. *)
Record Window : Type := {
  localStorage_getItem : string -> completion (option string)
}.

Record Host : Type := {
  window : option Window;
  JSON_parse : string -> completion json
}.

(** The console, as the list of messages written so far. *)
Definition Console : Type := list string.

Definition console_warn (message : string) : M Console unit :=
  modify (fun log => log ++ [message])%list.

(** [parsed.filter((color) => typeof color === 'string')] *)
Fixpoint filter_strings (elems : list json) : list string :=
  match elems with
  | [] => []
  | JString s :: rest => s :: filter_strings rest
  | _ :: rest => filter_strings rest
  end.

Definition LOAD_WARNING : string := "Failed to load color history".

Definition loadColorHistory (host : Host) : M Console (list string) :=
  match window host with
  | None => ret [DEFAULT_SHADOW_COLOR]
  | Some w =>
      try_catch
        (stored <- lift (localStorage_getItem w COLOR_HISTORY_KEY) ;;
         match stored with
         | None | Some EmptyString => ret [DEFAULT_SHADOW_COLOR]
         | Some text =>
             parsed <- lift (JSON_parse host text) ;;
             match parsed with
             | JArray ((_ :: _) as elems) => ret (filter_strings elems)
             | _ => ret [DEFAULT_SHADOW_COLOR]
             end
         end)%js
        (fun _ =>
           (console_warn LOAD_WARNING ;;;
            ret [DEFAULT_SHADOW_COLOR])%js)
  end.

(** The state update [commitColorToHistory] passes to [setColorHistory]. *)
Definition commitColorToHistory (nextColor : string) (prev : list string)
  : list string :=
  let filtered := filter (fun color => negb (String.eqb color nextColor)) prev in
  firstn MAX_COLOR_HISTORY (nextColor :: filtered).

Definition commit_all (colors : list string) (history : list string) : list string :=
  fold_left (fun h c => commitColorToHistory c h) colors history.

(** The history after startup on [host] (with an empty console) followed
    by the commits [colors]; [None] if the load threw. *)
Definition history_after (host : Host) (colors : list string) : option (list string) :=
  match fst (loadColorHistory host []) with
  | Normal initial => Some (commit_all colors initial)
  | Throw _ => None
  end.

(** ** The export adapter: [handleDownload] *)

(** A UTC date as [toISOString] reads it, by its calendar fields. *)
Record Date : Type := {
  year : Z;
  month : Z;          (* 1..12 *)
  day : Z;            (* 1..31 *)
  hours : Z;          (* 0..23 *)
  minutes : Z;        (* 0..59 *)
  seconds : Z;        (* 0..59 *)
  milliseconds : Z    (* 0..999 *)
}.

Definition valid_date (d : Date) : bool :=
  (-271821 <=? year d) && (year d <=? 275760) &&
  (1 <=? month d) && (month d <=? 12) &&
  (1 <=? day d) && (day d <=? 31) &&
  (0 <=? hours d) && (hours d <=? 23) &&
  (0 <=? minutes d) && (minutes d <=? 59) &&
  (0 <=? seconds d) && (seconds d <=? 59) &&
  (0 <=? milliseconds d) && (milliseconds d <=? 999).

Definition digit_char (n : Z) : ascii := ascii_of_N (48 + Z.to_N (n mod 10)).

(** The [width] low decimal digits of [n], most significant first: the
    zero-padded decimal form of any [0 <= n < 10 ^ width]. *)
Fixpoint fixed_digits (width : nat) (n : Z) : string :=
  match width with
  | O => EmptyString
  | S w => fixed_digits w (n / 10) ++ String (digit_char n) EmptyString
  end.

(** [Date.prototype.toISOString]: [YYYY-MM-DDTHH:mm:ss.sssZ], the year
    written with a sign and six digits outside 0..9999. *)
Definition toISOString (d : Date) : string :=
  let y := year d in
  let yyyy :=
    if (0 <=? y) && (y <=? 9999) then fixed_digits 4 y
    else if y <? 0 then "-" ++ fixed_digits 6 (- y)
    else "+" ++ fixed_digits 6 y in
  yyyy ++ "-" ++ fixed_digits 2 (month d) ++ "-" ++ fixed_digits 2 (day d)
       ++ "T" ++ fixed_digits 2 (hours d) ++ ":" ++ fixed_digits 2 (minutes d)
       ++ ":" ++ fixed_digits 2 (seconds d) ++ "." ++ fixed_digits 3 (milliseconds d)
       ++ "Z".

(** The class [[-:T]]. *)
Definition separators : Str.char_class := Str.OneOf ["-"%char; ":"%char; "T"%char].

(** [new Date().toISOString().replace(/[-:T]/g, "").slice(0, 12)] *)
Definition timestamp (now : Date) : string :=
  Str.slice0 12 (Str.replace_all separators "" (toISOString now)).

(** [`menu_${timestamp}.png`] *)
Definition download_name (now : Date) : string :=
  "menu_" ++ timestamp now ++ ".png".

(** An inline style as its list of declarations; [cssText] reads and
    writes the whole list. *)
Definition Style : Type := list (string * string).

Fixpoint set_property (prop value : string) (style : Style) : Style :=
  match style with
  | [] => [(prop, value)]
  | (p, v) :: rest =>
      if String.eqb p prop then (p, value) :: rest
      else (p, v) :: set_property prop value rest
  end.

Record Anchor : Type := {
  download : string;
  href : string
}.

(** The part of the browser [handleDownload] acts on: the inline style of
    the page element, the anchors created, the downloads started, the
    console errors and the alerts shown. *)
Record Browser : Type := {
  page_style : Style;
  anchors : list Anchor;
  downloads : list Anchor;
  console_errors : list string;
  alerts : list string
}.

(** What the outside answers during one export: the outcome of the awaited
    [domToPng] call on the page as styled at that moment, and the clock. *)
Record ExportHost : Type := {
  domToPng : Style -> completion string;
  clock : Date
}.

Definition set_page_style (f : Style -> Style) : M Browser unit :=
  modify (fun b => {| page_style := f (page_style b);
                      anchors := anchors b;
                      downloads := downloads b;
                      console_errors := console_errors b;
                      alerts := alerts b |}).

Definition style_set (prop value : string) : M Browser unit :=
  set_page_style (set_property prop value).

Definition createElement_a (a : Anchor) : M Browser unit :=
  modify (fun b => {| page_style := page_style b;
                      anchors := (anchors b ++ [a])%list;
                      downloads := downloads b;
                      console_errors := console_errors b;
                      alerts := alerts b |}).

Definition click (a : Anchor) : M Browser unit :=
  modify (fun b => {| page_style := page_style b;
                      anchors := anchors b;
                      downloads := (downloads b ++ [a])%list;
                      console_errors := console_errors b;
                      alerts := alerts b |}).

Definition console_error (message : string) : M Browser unit :=
  modify (fun b => {| page_style := page_style b;
                      anchors := anchors b;
                      downloads := downloads b;
                      console_errors := (console_errors b ++ [message])%list;
                      alerts := alerts b |}).

Definition alert (message : string) : M Browser unit :=
  modify (fun b => {| page_style := page_style b;
                      anchors := anchors b;
                      downloads := downloads b;
                      console_errors := console_errors b;
                      alerts := (alerts b ++ [message])%list |}).

(** [`${n}px`] for an integer [n]. *)
Definition px (n : Z) : string :=
  NilZero.string_of_int (Z.to_int n) ++ "px".

Definition EXPORT_FAILED : string := "PNGの書き出しに失敗しました。".

(** [handleDownload] with the page element mounted ([mounted = false] is
    the early return on a null ref).  The two awaits are sequenced in
    place: the 100 ms timer always resolves, [domToPng] resolves or
    rejects as the host says.  Style properties carry their CSS names
    ([zIndex] is [z-index], [backgroundColor] is [background-color]). *)
Definition handleDownload (host : ExportHost) (mounted : bool) : M Browser unit :=
  if negb mounted then ret tt
  else
    (b <- get ;;
     let originalStyle := page_style b in
     try_finally
       (try_catch
          (style_set "transition" "none" ;;;
           style_set "transform" "none" ;;;
           style_set "position" "fixed" ;;;
           style_set "top" "0" ;;;
           style_set "left" "0" ;;;
           style_set "width" (px PAGE_WIDTH) ;;;
           style_set "height" (px PAGE_HEIGHT) ;;;
           style_set "z-index" "9999" ;;;
           style_set "background-color" "#ffffff" ;;;
           styled <- get ;;
           dataUrl <- lift (domToPng host (page_style styled)) ;;
           let link := {| download := download_name (clock host); href := dataUrl |} in
           createElement_a link ;;;
           click link)
          (fun _ =>
             console_error "Download Error:" ;;;
             alert EXPORT_FAILED))
       (set_page_style (fun _ => originalStyle)))%js.

(** ** The rest of App.tsx: preview, visible items, the color picker *)

(** *** [formatPrice], [MenuPreview] and [itemsToRender] *)

(** The texts [MenuPreview] renders for one item: the name box, the main
    price, and the tax line when there is one. *)
Record PreviewText : Type := {
  name_text : string;
  price_main : string;
  price_tax : option string
}.

Definition NAME_PLACEHOLDER : string := "　".
Definition PRICE_UNDECIDED : string := "価格未定".

Section Preview.

(** [String(value)] on a number, as the engine prints it. *)
Variable NumberToString : JS.number -> string.

(** [value > 0 ? String(value) : ''] *)
Definition formatPrice (value : JS.number) : string :=
  if JS.gt value (JS.of_Z 0) then NumberToString value else "".

Definition MenuPreview (c : ComputedMenuItem) : PreviewText :=
  {| name_text :=
       match name (item c) with
       | EmptyString => NAME_PLACEHOLDER
       | text => text
       end;
     price_main :=
       if JS.truthy (priceValue c)
       then formatPrice (priceValue c) ++ "円"
       else PRICE_UNDECIDED;
     price_tax :=
       if JS.truthy (priceValue c)
       then Some ("（税込" ++ formatPrice (taxIncluded c) ++ "円）")
       else None |}.

End Preview.

(** The state [visibleCount], of type [1 | 2]. *)
Variant VisibleCount : Type := One | Two.

Definition count_of (v : VisibleCount) : nat :=
  match v with One => 1%nat | Two => 2%nat end.

(** [computedItems.slice(0, visibleCount)] *)
Definition itemsToRender (visibleCount : VisibleCount) (items : list MenuItem)
  : list ComputedMenuItem :=
  firstn (count_of visibleCount) (computedItems items).

(** *** The color picker: debounced commits

    [shadowColor] and [colorHistory] are React state, [historyTimeoutRef]
    is the ref holding the id of the pending debounce timer.  The
    browser's side of [window.setTimeout] is kept alongside: the pending
    timers of this component, each with the color its callback closes
    over, and the id the next call returns (ids are positive and never
    reused). *)
Record ColorState : Type := {
  shadowColor : string;
  colorHistory : list string;
  historyTimeoutRef : option positive;
  timers : list (positive * string);
  next_timer : positive
}.

(** [useState(initialColorHistory)], [useState(initialColorHistory[0] ??
    DEFAULT_SHADOW_COLOR)] and [useRef(null)]. *)
Definition initial_color_state (initialColorHistory : list string) : ColorState :=
  {| shadowColor := hd DEFAULT_SHADOW_COLOR initialColorHistory;
     colorHistory := initialColorHistory;
     historyTimeoutRef := None;
     timers := [];
     next_timer := 1%positive |}.

Definition setShadowColor (c : string) (st : ColorState) : ColorState :=
  {| shadowColor := c;
     colorHistory := colorHistory st;
     historyTimeoutRef := historyTimeoutRef st;
     timers := timers st;
     next_timer := next_timer st |}.

(** [commitColorToHistory(nextColor)] as it updates the state. *)
Definition commit_color (c : string) (st : ColorState) : ColorState :=
  {| shadowColor := shadowColor st;
     colorHistory := commitColorToHistory c (colorHistory st);
     historyTimeoutRef := historyTimeoutRef st;
     timers := timers st;
     next_timer := next_timer st |}.

Definition set_ref (r : option positive) (st : ColorState) : ColorState :=
  {| shadowColor := shadowColor st;
     colorHistory := colorHistory st;
     historyTimeoutRef := r;
     timers := timers st;
     next_timer := next_timer st |}.

(** [window.clearTimeout(id)] *)
Definition clearTimeout (id : positive) (st : ColorState) : ColorState :=
  {| shadowColor := shadowColor st;
     colorHistory := colorHistory st;
     historyTimeoutRef := historyTimeoutRef st;
     timers := filter (fun t => negb (Pos.eqb (fst t) id)) (timers st);
     next_timer := next_timer st |}.

(** [window.setTimeout(callback, 500)], the callback closing over [c]:
    the new state and the id returned. *)
Definition setTimeout (c : string) (st : ColorState) : ColorState * positive :=
  ({| shadowColor := shadowColor st;
      colorHistory := colorHistory st;
      historyTimeoutRef := historyTimeoutRef st;
      timers := (timers st ++ [(next_timer st, c)])%list;
      next_timer := Pos.succ (next_timer st) |},
   next_timer st).

(** [if (historyTimeoutRef.current) window.clearTimeout(...)] *)
Definition clear_pending (st : ColorState) : ColorState :=
  match historyTimeoutRef st with
  | Some id => clearTimeout id st
  | None => st
  end.

Definition scheduleHistoryUpdate (nextColor : string) (st : ColorState) : ColorState :=
  let st := clear_pending st in
  let '(st, id) := setTimeout nextColor st in
  set_ref (Some id) st.

(** The body of the timeout callback. *)
Definition timeout_callback (nextColor : string) (st : ColorState) : ColorState :=
  set_ref None (commit_color nextColor st).

Definition handleShadowColorChange (nextColor : string) (immediate : bool)
           (st : ColorState) : ColorState :=
  let st := setShadowColor nextColor st in
  if immediate then
    let st := match historyTimeoutRef st with
              | Some id => set_ref None (clearTimeout id st)
              | None => st
              end in
    commit_color nextColor st
  else scheduleHistoryUpdate nextColor st.

Definition flushPendingColor (st : ColorState) : ColorState :=
  let st := match historyTimeoutRef st with
            | Some id => set_ref None (clearTimeout id st)
            | None => st
            end in
  commit_color (shadowColor st) st.

(** The cleanup of the mount effect, run when the component unmounts. *)
Definition unmount_cleanup (st : ColorState) : ColorState := clear_pending st.

(** What can happen to the picker: the color input changes (debounced),
    a history chip is clicked (immediate), the input loses focus, or the
    browser runs the callback of the pending timer [id]. *)
Inductive color_event : Type :=
| InputChange (color : string)
| ChipClick (color : string)
| InputBlur
| TimeoutFires (id : positive).

Definition pending_color (id : positive) (st : ColorState) : option string :=
  option_map snd (find (fun t => Pos.eqb (fst t) id) (timers st)).

Definition color_step (st : ColorState) (ev : color_event) : ColorState :=
  match ev with
  | InputChange c => handleShadowColorChange c false st
  | ChipClick c => handleShadowColorChange c true st
  | InputBlur => flushPendingColor st
  | TimeoutFires id =>
      match pending_color id st with
      | Some c => timeout_callback c (clearTimeout id st)
      | None => st
      end
  end.

Definition run_colors (initialColorHistory : list string) (evs : list color_event)
  : ColorState :=
  fold_left color_step evs (initial_color_state initialColorHistory).

(** The history chips as rendered: none unless [colorHistory.length > 1],
    else one per color, in order, flagged [active] when
    [color === shadowColor]. *)
Definition color_chips (st : ColorState) : list (string * bool) :=
  if (1 <? List.length (colorHistory st))%nat
  then map (fun color => (color, String.eqb color (shadowColor st))) (colorHistory st)
  else [].

(** *** Persistence of the history

    The effect of [colorHistory] changes, in a browser ([window] is
    defined): [localStorage.setItem(COLOR_HISTORY_KEY,
    JSON.stringify(colorHistory))] on a store, and the browser that next
    starts on that store. *)
Definition Store : Type := string -> option string.

Definition setItem (key value : string) (store : Store) : Store :=
  fun k => if String.eqb k key then Some value else store k.

Definition persist (JSON_stringify : list string -> string)
           (colorHistory : list string) (store : Store) : Store :=
  setItem COLOR_HISTORY_KEY (JSON_stringify colorHistory) store.

Definition host_on (store : Store) (parse : string -> completion json) : Host :=
  {| window := Some {| localStorage_getItem := fun key => Normal (store key) |};
     JSON_parse := parse |}.

(** ** Vocabulary of the statements

    Invariants, the claims' wording and the sample inputs that the
    properties of Part II are stated with. *)

(** *** Rounding *)

(** What a rounding step may return for a non-negative mantissa: never
    NaN, the requested sign, and an exponent that did not decrease. *)
Definition rounded_from (s : bool) (E : Z) (x : JS.number) : Prop :=
  match x with
  | S754_zero s' | S754_infinity s' => s' = s
  | S754_finite s' _ e => s' = s /\ E <= e
  | S754_nan => False
  end.

(** The round and sticky bits of a shift record locate the dropped part
    [R] of the mantissa relative to half a unit [2^k / 2]. *)
Definition loc_rem (k : Z) (r s : bool) (R : Z) : Prop :=
  match r, s with
  | false, false => R = 0
  | false, true => 0 < 2 * R < 2 ^ k
  | true, false => 2 * R = 2 ^ k
  | true, true => 2 ^ k < 2 * R < 2 * 2 ^ k
  end.

(** [shifted M k rec]: [rec] is the exact mantissa [M] after [k] one-bit
    right shifts. *)
Definition shifted (M k : Z) (rec : shr_record) : Prop :=
  0 <= shr_m rec /\
  loc_rem k (shr_r rec) (shr_s rec) (M - shr_m rec * 2 ^ k).

(** *** Prices *)

(** Every stored price is a string of decimal digits. *)
Definition digits_only (items : list MenuItem) : Prop :=
  Forall (fun it => Str.all_digits (price it) = true) items.

(** A price of 310 digits: 1 followed by 309 zeros. *)
Definition huge_price : string :=
  String "1" (string_of_list_ascii (repeat "0"%char 309)).

(** *** Auto-fit *)

(** A text that is 300 px tall up to 100 px font size and 900 px tall
    beyond, in a parent 500 px high with 10 px padding on either side. *)
Definition sample_layout (node : TextNode) : JS.number :=
  match style_fontSize node with
  | Some s => if s <=? 100 then JS.of_Z 300 else JS.of_Z 900
  | None => JS.of_Z 0
  end.

Definition sample_parent : ParentBox :=
  {| clientHeight := 500; paddingTop := JS.of_Z 10; paddingBottom := JS.of_Z 10 |}.

Definition sample_node : TextNode :=
  {| style_fontSize := None; parentElement := Some sample_parent |}.

(** The same text, last sized at 100 px, in a parent collapsed to no
    height at all. *)
Definition collapsed_parent : ParentBox :=
  {| clientHeight := 0; paddingTop := JS.of_Z 0; paddingBottom := JS.of_Z 0 |}.

Definition collapsed_node : TextNode :=
  {| style_fontSize := Some 100; parentElement := Some collapsed_parent |}.

(** *** Color history *)

(** The filter of [commitColorToHistory]: every color but [c]. *)
Definition other_than (c : string) : string -> bool :=
  fun color => negb (String.eqb color c).

(** Within the cap and without duplicates. *)
Definition history_ok (h : list string) : Prop :=
  (List.length h <= MAX_COLOR_HISTORY)%nat /\ NoDup h.

(** JSON text of a list of plain color strings, as the persistence effect
    writes it with [JSON.stringify]. *)
Definition quoted (s : string) : string :=
  String (ascii_of_nat 34) (s ++ String (ascii_of_nat 34) "").

Definition stringify_colors (colors : list string) : string :=
  "[" ++ String.concat "," (map quoted colors) ++ "]".

(** A browser whose store holds [text] under the history key, [text]
    being JSON for [value]. *)
Definition host_storing (text : string) (value : json) : Host :=
  {| window :=
       Some {| localStorage_getItem :=
                 fun key => if String.eqb key COLOR_HISTORY_KEY
                            then Normal (Some text) else Normal None |};
     JSON_parse :=
       fun t => if String.eqb t text then Normal value
                else Throw (Error "SyntaxError") |}.

Definition nine_colors : list string :=
  ["#000001"; "#000002"; "#000003"; "#000004"; "#000005";
   "#000006"; "#000007"; "#000008"; "#000009"].

(** *** Export *)

(** YYYYMMDDHHMM: the year on four digits, then month, day, hours and
    minutes on two digits each. *)
Definition stamp_digits (now : Date) : string :=
  fixed_digits 4 (year now) ++ fixed_digits 2 (month now) ++ fixed_digits 2 (day now)
               ++ fixed_digits 2 (hours now) ++ fixed_digits 2 (minutes now).

(** The inline style at the moment of capture. *)
Definition capture_style (style : Style) : Style :=
  set_property "background-color" "#ffffff"
    (set_property "z-index" "9999"
       (set_property "height" "1123px"
          (set_property "width" "794px"
             (set_property "left" "0"
                (set_property "top" "0"
                   (set_property "position" "fixed"
                      (set_property "transform" "none"
                         (set_property "transition" "none" style)))))))).

(** The first instant of the year 10000, and an ordinary instant. *)
Definition year_10000 : Date :=
  {| year := 10000; month := 1; day := 1;
     hours := 0; minutes := 0; seconds := 0; milliseconds := 0 |}.

Definition sample_date : Date :=
  {| year := 2026; month := 11; day := 2;
     hours := 9; minutes := 5; seconds := 7; milliseconds := 42 |}.

(** *** Vocabulary for the properties of the rest *)

(** What the form shows for the item [item_id] after [evs], starting from
    [current]: the value of the last edit addressed to it (reduced to its
    digits for a price). *)
Fixpoint last_name (item_id : string) (evs : list form_event) (current : string)
  : string :=
  match evs with
  | [] => current
  | NameChange t v :: rest =>
      last_name item_id rest (if String.eqb item_id t then v else current)
  | PriceChange _ _ :: rest => last_name item_id rest current
  end.

Fixpoint last_price (item_id : string) (evs : list form_event) (current : string)
  : string :=
  match evs with
  | [] => current
  | NameChange _ _ :: rest => last_price item_id rest current
  | PriceChange t v :: rest =>
      last_price item_id rest (if String.eqb item_id t then sanitizeDigits v else current)
  end.

(** At least one: [+Infinity], or a positive finite number whose value
    [m * 2^e] is not below 1. *)
Definition at_least_one (x : JS.number) : Prop :=
  match x with
  | S754_infinity false => True
  | S754_finite false m e => e < 0 -> 2 ^ (- e) <= Zpos m
  | _ => False
  end.

(** The debounce discipline of the color picker: with no timer pending
    the selected color heads the history; otherwise exactly one timer is
    pending, the ref holds its id and it will commit the selected color. *)
Definition picker_settled (st : ColorState) : Prop :=
  match historyTimeoutRef st with
  | None =>
      timers st = [] /\ hd DEFAULT_SHADOW_COLOR (colorHistory st) = shadowColor st
  | Some id => timers st = [(id, shadowColor st)]
  end.

(** Two instants of the same minute. *)
Definition same_minute (d1 d2 : Date) : Prop :=
  year d1 = year d2 /\ month d1 = month d2 /\ day d1 = day d2 /\
  hours d1 = hours d2 /\ minutes d1 = minutes d2.

(* ================================================================= *)
(** * Part II: properties *)
(* ================================================================= *)

(** ** Facts about binary64 arithmetic

    The Standard Library defines the operations of [spec_float]; the
    lemmas below are the part of their theory the program needs:
    comparisons form a preorder away from NaN, integers below 2^53 convert
    exactly, and rounding a product returns one of the two neighbours of
    the exact value, the nearer one. *)

Module FloatFacts.

Lemma digits2_pos_bounds (p : positive) :
  2 ^ (Zpos (digits2_pos p) - 1) <= Zpos p < 2 ^ Zpos (digits2_pos p).
Proof.
  induction p as [p IH | p IH |]; cbn [digits2_pos].
  - rewrite Pos2Z.inj_succ, Z.pow_succ_r by lia.
    replace (Z.succ (Zpos (digits2_pos p)) - 1) with (Z.succ (Zpos (digits2_pos p) - 1)) by lia.
    rewrite Z.pow_succ_r by lia. lia.
  - rewrite Pos2Z.inj_succ, Z.pow_succ_r by lia.
    replace (Z.succ (Zpos (digits2_pos p)) - 1) with (Z.succ (Zpos (digits2_pos p) - 1)) by lia.
    rewrite Z.pow_succ_r by lia. lia.
  - cbn. lia.
Qed.

Lemma digits2_pos_unique (p : positive) (k : Z) :
  2 ^ (k - 1) <= Zpos p < 2 ^ k -> Zpos (digits2_pos p) = k.
Proof.
  intros [Hlo Hhi].
  pose proof (digits2_pos_bounds p) as [Blo Bhi].
  assert (0 < k).
  { destruct (Z_lt_le_dec 0 k) as [|Hk]; [assumption|].
    assert (2 ^ k <= 1).
    { destruct (Z.eq_dec k 0) as [->|]; [cbn; lia|].
      rewrite Z.pow_neg_r by lia. lia. }
    lia. }
  assert (Zpos (digits2_pos p) - 1 < k).
  { apply (Z.pow_lt_mono_r_iff 2); lia. }
  assert (k - 1 < Zpos (digits2_pos p)).
  { apply (Z.pow_lt_mono_r_iff 2); lia. }
  lia.
Qed.

Lemma iter_xO_value (p d : positive) :
  Zpos (Pos.iter xO p d) = Zpos p * 2 ^ Zpos d.
Proof.
  induction d as [|d IH] using Pos.peano_ind.
  - cbn. lia.
  - rewrite Pos.iter_succ, Pos2Z.inj_succ, Z.pow_succ_r by lia.
    rewrite Pos2Z.inj_xO, IH. lia.
Qed.

Lemma shr_1_m (r : shr_record) :
  0 <= shr_m r -> shr_m (shr_1 r) = shr_m r / 2.
Proof.
  destruct r as [m r s]; cbn [shr_m]; intros Hm.
  destruct m as [|p|p]; [reflexivity| |lia].
  destruct p as [p|p|]; cbn [shr_1 shr_m].
  - rewrite Pos2Z.inj_xI. apply Z.div_unique with 1; lia.
  - rewrite Pos2Z.inj_xO. apply Z.div_unique with 0; lia.
  - reflexivity.
Qed.

Lemma iter_shr_1_m (p : positive) :
  forall r, 0 <= shr_m r ->
            shr_m (iter_pos shr_1 p r) = shr_m r / 2 ^ Zpos p.
Proof.
  induction p as [p IH | p IH |]; intros r Hr; cbn [iter_pos].
  - assert (H1 : 0 <= shr_m (shr_1 r)).
    { rewrite shr_1_m by assumption. apply Z.div_pos; lia. }
    assert (H2 : 0 <= shr_m (iter_pos shr_1 p (shr_1 r))).
    { rewrite IH by assumption. apply Z.div_pos; [assumption|]. apply Z.pow_pos_nonneg; lia. }
    assert (E : 2 ^ Zpos p~1 = 2 * (2 ^ Zpos p * 2 ^ Zpos p)).
    { replace (Zpos p~1) with (1 + (Zpos p + Zpos p)) by lia.
      rewrite !Z.pow_add_r by lia. reflexivity. }
    rewrite IH, IH, shr_1_m, E by assumption.
    rewrite !Z.div_div by (try apply Z.pow_pos_nonneg; lia).
    reflexivity.
  - assert (H2 : 0 <= shr_m (iter_pos shr_1 p r)).
    { rewrite IH by assumption. apply Z.div_pos; [assumption|]. apply Z.pow_pos_nonneg; lia. }
    assert (E : 2 ^ Zpos p~0 = 2 ^ Zpos p * 2 ^ Zpos p).
    { replace (Zpos p~0) with (Zpos p + Zpos p) by lia.
      rewrite Z.pow_add_r by lia. reflexivity. }
    rewrite IH, IH, E by assumption.
    rewrite !Z.div_div by (try apply Z.pow_pos_nonneg; lia).
    reflexivity.
  - rewrite shr_1_m by assumption. reflexivity.
Qed.

Lemma fexp_binary64 (x : Z) : fexp JS.prec JS.emax x = Z.max (x - 53) (-1074).
Proof. reflexivity. Qed.

Lemma shr_m_of_loc (m : Z) (l : location) : shr_m (shr_record_of_loc m l) = m.
Proof. destruct l as [|[]]; reflexivity. Qed.

Lemma shr_weak (r : shr_record) (e n : Z) :
  0 <= shr_m r -> 0 <= shr_m (fst (shr r e n)) /\ e <= snd (shr r e n).
Proof.
  intros Hr. destruct n as [|p|p]; cbn [shr fst snd]; try lia.
  split; [|lia]. rewrite iter_shr_1_m by assumption.
  apply Z.div_pos; [assumption | apply Z.pow_pos_nonneg; lia].
Qed.

Lemma round_nearest_even_range (m : Z) (l : location) :
  m <= round_nearest_even m l <= m + 1.
Proof.
  destruct l as [|[]]; cbn [round_nearest_even]; try lia.
  destruct (Z.even m); lia.
Qed.

Lemma binary_round_aux_weak (s : bool) (M E : Z) (l : location) :
  0 <= M -> rounded_from s E (binary_round_aux JS.prec JS.emax s M E l).
Proof.
  intros HM. unfold binary_round_aux, shr_fexp.
  pose proof (shr_weak (shr_record_of_loc M l) E
                (fexp JS.prec JS.emax (Zdigits2 M + E) - E)) as W1.
  rewrite (shr_m_of_loc M l) in W1. specialize (W1 HM).
  destruct (shr (shr_record_of_loc M l) E _) as [r1 e1]. cbn [fst snd] in W1.
  set (m1 := round_nearest_even (shr_m r1) (loc_of_shr_record r1)).
  assert (Hm1 : 0 <= m1).
  { pose proof (round_nearest_even_range (shr_m r1) (loc_of_shr_record r1)). subst m1. lia. }
  pose proof (shr_weak (shr_record_of_loc m1 loc_Exact) e1
                (fexp JS.prec JS.emax (Zdigits2 m1 + e1) - e1)) as W2.
  rewrite (shr_m_of_loc m1 loc_Exact) in W2. specialize (W2 Hm1).
  destruct (shr (shr_record_of_loc m1 loc_Exact) e1 _) as [r2 e2]. cbn [fst snd] in W2.
  destruct (shr_m r2) as [|p|p]; cbn [rounded_from]; [reflexivity | | lia].
  destruct (e2 <=? JS.emax - JS.prec); cbn [rounded_from]; [split; [reflexivity | lia] | reflexivity].
Qed.

Lemma pow2_pos (k : Z) : 0 <= k -> 0 < 2 ^ k.
Proof. intros; apply Z.pow_pos_nonneg; lia. Qed.

Lemma shifted_shr_1 (M k : Z) (rec : shr_record) :
  0 <= k -> shifted M k rec -> shifted M (k + 1) (shr_1 rec).
Proof.
  intros Hk [Hm Hloc]. destruct rec as [m r s]. cbn [shr_m shr_r shr_s] in *.
  pose proof (pow2_pos k Hk) as Hp.
  assert (E2 : 2 ^ (k + 1) = 2 * 2 ^ k) by (rewrite Z.pow_add_r by lia; lia).
  unfold shifted. rewrite E2.
  destruct m as [|p|p]; [ | | lia].
  - cbn [shr_1 shr_m shr_r shr_s]. split; [lia|].
    destruct r, s; cbn [loc_rem orb] in *; lia.
  - destruct p as [p|p|]; cbn [shr_1 shr_m shr_r shr_s]; (split; [lia|]).
    + rewrite Pos2Z.inj_xI in Hloc.
      destruct r, s; cbn [loc_rem orb] in *; lia.
    + rewrite Pos2Z.inj_xO in Hloc.
      destruct r, s; cbn [loc_rem orb] in *; lia.
    + destruct r, s; cbn [loc_rem orb] in *; lia.
Qed.

Lemma iter_pos_invariant {A : Type} (f : A -> A) (Inv : Z -> A -> Prop) :
  (forall k x, 0 <= k -> Inv k x -> Inv (k + 1) (f x)) ->
  forall (n : positive) (k : Z) (x : A),
    0 <= k -> Inv k x -> Inv (k + Zpos n) (iter_pos f n x).
Proof.
  intros Hstep. induction n as [n IH | n IH |]; intros k x Hk Hx; cbn [iter_pos].
  - replace (k + Zpos n~1) with (k + 1 + Zpos n + Zpos n) by lia.
    apply IH; [lia|]. apply IH; [lia|]. apply Hstep; assumption.
  - replace (k + Zpos n~0) with (k + Zpos n + Zpos n) by lia.
    apply IH; [lia|]. apply IH; assumption.
  - apply Hstep; assumption.
Qed.

Lemma shifted_div (M k : Z) (rec : shr_record) :
  0 <= k -> shifted M k rec -> shr_m rec = M / 2 ^ k.
Proof.
  intros Hk [Hm Hloc]. pose proof (pow2_pos k Hk) as Hp.
  apply Z.div_unique with (M - shr_m rec * 2 ^ k); [|lia].
  left. destruct (shr_r rec), (shr_s rec); cbn [loc_rem] in Hloc; lia.
Qed.

Lemma shr_fexp_exact (p : positive) (E : Z) :
  53 <= Zpos (digits2_pos p) ->
  -1074 <= E + (Zpos (digits2_pos p) - 53) ->
  exists r,
    shr_fexp JS.prec JS.emax (Zpos p) E loc_Exact = (r, E + (Zpos (digits2_pos p) - 53)) /\
    shifted (Zpos p) (Zpos (digits2_pos p) - 53) r.
Proof.
  intros Hd He. unfold shr_fexp. cbn [Zdigits2 shr_record_of_loc].
  rewrite fexp_binary64.
  replace (Z.max (Zpos (digits2_pos p) + E - 53) (-1074) - E)
    with (Zpos (digits2_pos p) - 53) by lia.
  assert (H0 : shifted (Zpos p) 0 (Build_shr_record (Zpos p) false false)).
  { split; cbn [shr_m shr_r shr_s loc_rem]; lia. }
  destruct (Zpos (digits2_pos p) - 53) as [|n|n] eqn:En; [| |lia].
  - cbn [shr]. eexists. split; [f_equal; lia | exact H0].
  - cbn [shr]. eexists. split; [reflexivity|].
    apply (iter_pos_invariant shr_1 (shifted (Zpos p)) (shifted_shr_1 (Zpos p)) n 0);
      [lia | exact H0].
Qed.

Lemma shifted_0 (M : Z) (rec : shr_record) :
  shifted M 0 rec -> rec = Build_shr_record M false false.
Proof.
  intros [Hm Hloc]. destruct rec as [m r s]. cbn [shr_m shr_r shr_s] in *.
  destruct r, s; cbn [loc_rem] in Hloc; try lia. f_equal. lia.
Qed.

(** Rounding an exact positive mantissa of at least 53 bits in the normal
    range: the result is the truncated mantissa [q] or its successor --
    [q] only if the dropped part is at most half a unit, [q + 1] only if
    it is at least half a unit -- at the exponent raised by the number of
    dropped bits (one more when the successor needs a 54th bit). *)
Lemma binary_round_aux_normal (s : bool) (p : positive) (E : Z) :
  53 <= Zpos (digits2_pos p) ->
  -1074 <= E + (Zpos (digits2_pos p) - 53) ->
  E + (Zpos (digits2_pos p) - 53) < 971 ->
  exists m' : positive,
    let n := Zpos (digits2_pos p) - 53 in
    let q := Zpos p / 2 ^ n in
    ((Zpos m' = q /\ 2 * (Zpos p - q * 2 ^ n) <= 2 ^ n) \/
     (Zpos m' = q + 1 /\ 2 ^ n <= 2 * (Zpos p - q * 2 ^ n))) /\
    (n = 0 -> m' = p) /\
    ((Zpos m' < 2 ^ 53 /\
      binary_round_aux JS.prec JS.emax s (Zpos p) E loc_Exact
      = S754_finite s m' (E + n))
     \/
     (Zpos m' = 2 ^ 53 /\
      binary_round_aux JS.prec JS.emax s (Zpos p) E loc_Exact
      = S754_finite s (2 ^ 52)%positive (E + n + 1))).
Proof.
  intros Hd Hlo Hhi.
  set (d := Zpos (digits2_pos p)) in *.
  destruct (shr_fexp_exact p E Hd Hlo) as (r1 & Hr1 & Hsh). fold d in Hr1, Hsh.
  pose proof (digits2_pos_bounds p) as [Blo Bhi]. fold d in Blo, Bhi.
  cbv zeta. set (n := d - 53) in *. 
  assert (Hn0 : 0 <= n) by (subst n; lia).
  pose proof (shifted_div _ _ _ Hn0 Hsh) as Hq.
  set (q := Zpos p / 2 ^ n) in *.
  assert (Hpow : 0 < 2 ^ n) by (apply pow2_pos; lia).
  assert (Hq52 : 2 ^ 52 <= q).
  { apply Z.div_le_lower_bound; [assumption|].
    rewrite <- Z.pow_add_r by lia. replace (n + 52) with (d - 1) by (subst n; lia). assumption. }
  assert (Hq53 : q < 2 ^ 53).
  { apply Z.div_lt_upper_bound; [assumption|].
    rewrite <- Z.pow_add_r by lia. replace (n + 53) with d by (subst n; lia). assumption. }
  set (m1 := round_nearest_even (shr_m r1) (loc_of_shr_record r1)).
  assert (Hnear : (m1 = q /\ 2 * (Zpos p - q * 2 ^ n) <= 2 ^ n) \/
                  (m1 = q + 1 /\ 2 ^ n <= 2 * (Zpos p - q * 2 ^ n))).
  { subst m1. destruct Hsh as [_ Hloc]. rewrite Hq in *.
    destruct r1 as [m1 r s']. cbn [shr_m shr_r shr_s] in *. subst m1.
    destruct r, s'; cbn [loc_rem loc_of_shr_record round_nearest_even] in *; try lia.
    destruct (Z.even q); lia. }
  assert (Hm1eq : n = 0 -> m1 = Zpos p).
  { intros E0. subst m1. rewrite E0 in Hsh. rewrite (shifted_0 _ _ Hsh). reflexivity. }
  destruct m1 as [|m'|m'] eqn:Em1; [lia | | lia].
  exists m'. split; [exact Hnear|]. split.
  { intros E0. specialize (Hm1eq E0). congruence. }
  unfold binary_round_aux. rewrite Hr1. fold m1. rewrite Em1.
  destruct (Z_lt_le_dec (Zpos m') (2 ^ 53)) as [Hlt | Hge].
  - left. split; [assumption|].
    assert (Hd' : Zpos (digits2_pos m') = 53) by (apply digits2_pos_unique; lia).
    destruct (shr_fexp_exact m' (E + n)) as (r2 & Hr2 & Hsh2); try lia.
    rewrite Hd' in Hr2, Hsh2. replace (E + n + (53 - 53)) with (E + n) in Hr2 by lia.
    rewrite Hr2, (shifted_0 _ _ Hsh2). cbn [shr_m].
    replace (E + n <=? JS.emax - JS.prec) with true; [reflexivity|].
    symmetry. apply Z.leb_le. unfold JS.emax, JS.prec. lia.
  - right. assert (Em' : Zpos m' = 2 ^ 53) by lia. split; [assumption|].
    assert (m' = (2 ^ 53)%positive) as -> by (apply Pos2Z.inj; rewrite Em'; reflexivity).
    assert (D54 : Zpos (digits2_pos (2 ^ 53)) = 54) by (vm_compute; reflexivity).
    destruct (shr_fexp_exact (2 ^ 53)%positive (E + n)) as (r2 & Hr2 & Hsh2);
      [rewrite D54; lia | rewrite D54; lia |].
    rewrite D54 in Hr2, Hsh2.
    rewrite Hr2, (shifted_div (Zpos (2 ^ 53)) (54 - 53) r2 ltac:(lia) Hsh2).
    replace (Zpos (2 ^ 53) / 2 ^ (54 - 53)) with (Zpos (2 ^ 52)) by (vm_compute; reflexivity).
    replace (E + n + (54 - 53) <=? JS.emax - JS.prec) with true.
    + f_equal; lia.
    + symmetry. apply Z.leb_le. unfold JS.emax, JS.prec. lia.
Qed.

(** Integers below 2^53 are represented exactly: the mantissa is the
    integer shifted up to 53 bits. *)
Lemma of_Z_exact (N : Z) :
  0 < N < 2 ^ 53 ->
  exists (m : positive) (e : Z),
    JS.of_Z N = S754_finite false m e /\
    -52 <= e <= 0 /\
    Zpos m = N * 2 ^ (- e) /\
    2 ^ 52 <= Zpos m < 2 ^ 53 /\
    N < 2 ^ (e + 53).
Proof.
  intros [Hpos Hlt]. destruct N as [|p|p]; try lia.
  pose proof (digits2_pos_bounds p) as [Blo Bhi].
  set (d := Zpos (digits2_pos p)) in *.
  assert (Hd1 : 1 <= d) by (subst d; lia).
  assert (Hd : d <= 53).
  { assert (d - 1 < 53); [|lia]. apply (Z.pow_lt_mono_r_iff 2); lia. }
  unfold JS.of_Z, binary_normalize, binary_round.
  rewrite fexp_binary64. fold d.
  replace (Z.max (d + 0 - 53) (-1074)) with (d - 53) by lia.
  unfold shl_align.
  destruct (d - 53 - 0) as [|k|k] eqn:Ek; [| lia |].
  - (* already 53 bits *)
    assert (E53 : d = 53) by lia.
    destruct (binary_round_aux_normal false p 0) as (m' & _ & Hsame & Hcase);
      fold d; try lia.
    specialize (Hsame ltac:(fold d; lia)). subst m'.
    exists p, 0. destruct Hcase as [[_ Hr] | [Habs _]]; [|lia].
    rewrite Hr. split; [f_equal; lia|].
    rewrite E53 in *. cbn [Z.opp]. rewrite Z.pow_0_r.
    repeat split; try lia.
  - (* shifted left by 53 - d bits *)
    assert (Hk : Zpos k = 53 - d) by lia.
    set (mz := Pos.iter xO p k).
    assert (Hmz : Zpos mz = Zpos p * 2 ^ (53 - d)).
    { subst mz. rewrite iter_xO_value, Hk. reflexivity. }
    assert (Hmz52 : 2 ^ 52 <= Zpos mz).
    { rewrite Hmz. replace 52 with ((d - 1) + (53 - d)) at 1 by lia.
      rewrite Z.pow_add_r by lia.
      apply Z.mul_le_mono_nonneg_r; [apply Z.lt_le_incl, pow2_pos; lia | assumption]. }
    assert (Hmz53 : Zpos mz < 2 ^ 53).
    { rewrite Hmz. replace 53 with (d + (53 - d)) at 2 by lia.
      rewrite Z.pow_add_r by lia.
      apply Z.mul_lt_mono_pos_r; [apply pow2_pos; lia | assumption]. }
    assert (Hdz : Zpos (digits2_pos mz) = 53) by (apply digits2_pos_unique; lia).
    destruct (binary_round_aux_normal false mz (d - 53)) as (m' & _ & Hsame & Hcase);
      rewrite ?Hdz; try lia.
    specialize (Hsame ltac:(lia)). subst m'.
    exists mz, (d - 53). destruct Hcase as [[_ Hr] | [Habs _]]; [|lia].
    rewrite Hdz in Hr. rewrite Hr. split; [f_equal; lia|].
    replace (- (d - 53)) with (53 - d) by lia.
    replace (d - 53 + 53) with d by lia.
    repeat split; try lia.
Qed.

Lemma integer_value_of_Z (N : Z) :
  0 <= N < 2 ^ 53 -> JS.integer_value (JS.of_Z N) = Some N.
Proof.
  intros [H0 Hlt]. destruct (Z.eq_dec N 0) as [->|Hne]; [reflexivity|].
  destruct (of_Z_exact N) as (m & e & -> & He & Hm & _ & _); [lia|].
  unfold JS.integer_value. cbn [cond_Zopp].
  destruct (0 <=? e) eqn:Ee.
  - apply Z.leb_le in Ee. assert (e = 0) as -> by lia.
    rewrite Hm. cbn [Z.opp]. rewrite Z.pow_0_r. f_equal. lia.
  - rewrite Hm, Z.mod_mul by (apply Z.neq_sym, Z.lt_neq, pow2_pos; lia).
    cbn [Z.eqb]. rewrite Z.div_mul by (apply Z.neq_sym, Z.lt_neq, pow2_pos; lia).
    reflexivity.
Qed.

(** *** Comparisons *)

Ltac compare_cases :=
  repeat match goal with
         | |- context [Pos.compare_cont Eq ?a ?b] =>
             change (Pos.compare_cont Eq a b) with (Pos.compare a b)
         | H : context [Pos.compare_cont Eq ?a ?b] |- _ =>
             change (Pos.compare_cont Eq a b) with (Pos.compare a b) in H
         end;
  repeat match goal with
         | H : context [Z.compare ?a ?b] |- _ => destruct (Z.compare_spec a b)
         | H : context [Pos.compare ?a ?b] |- _ => destruct (Pos.compare_spec a b)
         | |- context [Z.compare ?a ?b] => destruct (Z.compare_spec a b)
         | |- context [Pos.compare ?a ?b] => destruct (Pos.compare_spec a b)
         end;
  cbn in *; try discriminate; try reflexivity; try lia.

Lemma le_trans (a b c : JS.number) :
  JS.le a b = true -> JS.le b c = true -> JS.le a c = true.
Proof.
  unfold JS.le, SFleb, SFcompare.
  destruct a as [sa|sa| |sa ma ea], b as [sb|sb| |sb mb eb], c as [sc|sc| |sc mc ec];
    try destruct sa; try destruct sb; try destruct sc;
    intros H1 H2; try discriminate; try reflexivity; compare_cases.
Qed.

Lemma lt_le (a b : JS.number) : JS.lt a b = true -> JS.le a b = true.
Proof.
  unfold JS.lt, JS.le, SFltb, SFleb. destruct (SFcompare a b) as [[]|]; congruence.
Qed.

Lemma not_le_gt (a b : JS.number) :
  JS.is_nan a = false -> JS.is_nan b = false ->
  JS.le a b = false -> JS.gt a b = true.
Proof.
  unfold JS.le, JS.gt, SFleb, SFltb, SFcompare.
  destruct a as [sa|sa| |sa ma ea], b as [sb|sb| |sb mb eb];
    try destruct sa; try destruct sb;
    intros H1 H2 H3; try discriminate; try reflexivity; compare_cases.
Qed.

Lemma gt_zero_guard (x : JS.number) :
  JS.gt x (JS.of_Z 0) = true ->
  JS.truthy x = true /\ JS.le x (JS.of_Z 0) = false /\ JS.is_nan x = false.
Proof.
  destruct x as [s|s| |s m e]; try destruct s; cbn; intros H; try discriminate; auto.
Qed.

End FloatFacts.

Import FloatFacts.

(** *** The number model on known values *)

Example tax_rate_is_nearest_tenth :
  TAX_RATE = S754_finite false 7205759403792794 (-56).
Proof. vm_compute. reflexivity. Qed.

Example round_half_up :
  JS.Math_round (JS.div (JS.of_Z 5) (JS.of_Z 2)) = JS.of_Z 3 /\
  JS.Math_round (JS.div (JS.of_Z (-5)) (JS.of_Z 2)) = JS.of_Z (-2) /\
  JS.Math_round (JS.div (JS.of_Z 2) (JS.of_Z 5)) = JS.of_Z 0 /\
  JS.Math_round (JS.div (JS.of_Z (-2)) (JS.of_Z 5)) = S754_zero true.
Proof. vm_compute. repeat split. Qed.

Example initial_items_computed :
  map (fun c => (JS.integer_value (priceValue c), JS.integer_value (taxIncluded c)))
      (computedItems initialItems)
  = [(Some 980, Some 1078); (Some 888, Some 977)].
Proof. vm_compute. reflexivity. Qed.

(** ** Prices: sanitization, parsing and tax *)

Lemma of_Z_large (N : Z) : 2 ^ 53 <= N -> rounded_from false 0 (JS.of_Z N).
Proof.
  intros HN. destruct N as [|p|p]; try (change (2 ^ 53) with 9007199254740992 in HN; lia).
  pose proof (digits2_pos_bounds p) as [_ Bhi].
  assert (Hd : 53 < Zpos (digits2_pos p)).
  { apply (Z.pow_lt_mono_r_iff 2); lia. }
  unfold JS.of_Z, binary_normalize, binary_round. rewrite fexp_binary64.
  unfold shl_align.
  destruct (Z.max (Zpos (digits2_pos p) + 0 - 53) (-1074) - 0) as [|k|k] eqn:Ek; try lia.
  apply binary_round_aux_weak. lia.
Qed.

(** The numeric price is never NaN and never negative: it is [Infinity] or
    a non-negative integer. *)
Lemma price_of_Z_shape (N : Z) :
  0 <= N ->
  let x := JS.or_else (JS.of_Z N) (JS.of_Z 0) in
  x = JS.Infinity \/ exists n, 0 <= n /\ JS.integer_value x = Some n.
Proof.
  intros HN. cbv zeta.
  destruct (Z_lt_le_dec N (2 ^ 53)) as [Hs | Hl].
  - right. destruct (Z.eq_dec N 0) as [->|Hne]; [exists 0; split; [lia | reflexivity]|].
    destruct (of_Z_exact N ltac:(lia)) as (m & e & Hof & _).
    pose proof (integer_value_of_Z N ltac:(lia)) as Hiv.
    rewrite Hof in *. cbn [JS.or_else JS.truthy]. exists N. split; [lia | exact Hiv].
  - pose proof (of_Z_large N Hl) as Hshape.
    destruct (JS.of_Z N) as [s|s| |s m e]; cbn [rounded_from] in Hshape.
    + right. exists 0. split; [lia | reflexivity].
    + left. subst s. reflexivity.
    + contradiction.
    + right. destruct Hshape as [-> He]. cbn [JS.or_else JS.truthy JS.integer_value].
      replace (0 <=? e) with true by (symmetry; apply Z.leb_le; assumption).
      cbn [cond_Zopp]. eexists. split; [|reflexivity].
      apply Z.mul_nonneg_nonneg; [lia | apply Z.lt_le_incl, pow2_pos; assumption].
Qed.

Lemma sanitizeDigits_filter (value : string) :
  list_ascii_of_string (sanitizeDigits value)
  = filter Str.is_digit (list_ascii_of_string value).
Proof.
  unfold sanitizeDigits.
  induction value as [|a rest IH]; [reflexivity|].
  cbn [Str.replace_all Str.class_matches list_ascii_of_string filter].
  destruct (Str.is_digit a); cbn [negb].
  - cbn [list_ascii_of_string]. rewrite IH. reflexivity.
  - cbn [append]. exact IH.
Qed.

Lemma sanitizeDigits_all_digits (value : string) :
  Str.all_digits (sanitizeDigits value) = true.
Proof.
  unfold Str.all_digits. rewrite sanitizeDigits_filter.
  apply forallb_forall. intros a Ha. apply filter_In in Ha. tauto.
Qed.

Lemma filter_subseq (f : ascii -> bool) (l : list ascii) : Str.subseq (filter f l) l.
Proof.
  induction l as [|a l IH]; cbn [filter]; [constructor|].
  destruct (f a); constructor; assumption.
Qed.

Lemma digit_value_range (a : ascii) :
  Str.is_digit a = true -> 0 <= Str.digit_value a <= 9.
Proof.
  unfold Str.is_digit, Str.digit_value. intros H.
  apply andb_true_iff in H. destruct H as [H1 H2].
  apply N.leb_le in H1, H2. lia.
Qed.

Lemma decimal_from_nonneg (s : string) :
  forall acc, 0 <= acc -> Str.all_digits s = true -> 0 <= Str.decimal_from acc s.
Proof.
  induction s as [|a rest IH]; intros acc Hacc Hd; cbn [Str.decimal_from]; [assumption|].
  unfold Str.all_digits in Hd. cbn [list_ascii_of_string forallb] in Hd.
  apply andb_true_iff in Hd. destruct Hd as [Ha Hrest].
  apply IH; [|exact Hrest]. pose proof (digit_value_range a Ha). lia.
Qed.

Lemma decimal_value_nonneg (s : string) :
  Str.all_digits s = true -> 0 <= Str.decimal_value s.
Proof. apply decimal_from_nonneg. lia. Qed.

Lemma priceValue_eq (it : MenuItem) :
  priceValue (computeItem it)
  = JS.or_else (JS.of_Z (Str.decimal_value (sanitizeDigits (price it)))) (JS.of_Z 0).
Proof.
  unfold computeItem. cbn [priceValue]. unfold Str.Number.
  rewrite sanitizeDigits_all_digits. reflexivity.
Qed.

Lemma of_Z_2_53 : JS.integer_value (JS.of_Z (2 ^ 53)) = Some (2 ^ 53).
Proof. vm_compute. reflexivity. Qed.

Lemma priceValue_exact (it : MenuItem) :
  Str.decimal_value (sanitizeDigits (price it)) <= 2 ^ 53 ->
  JS.integer_value (priceValue (computeItem it))
  = Some (Str.decimal_value (sanitizeDigits (price it))).
Proof.
  intros Hle. rewrite priceValue_eq.
  pose proof (decimal_value_nonneg _ (sanitizeDigits_all_digits (price it))) as H0.
  set (N := Str.decimal_value (sanitizeDigits (price it))) in *.
  destruct (Z.eq_dec N 0) as [->|Hne]; [reflexivity|].
  destruct (Z.eq_dec N (2 ^ 53)) as [->|Hne'].
  - vm_compute. reflexivity.
  - destruct (of_Z_exact N ltac:(lia)) as (m & e & Hof & _).
    pose proof (integer_value_of_Z N ltac:(lia)) as Hiv.
    rewrite Hof in *. exact Hiv.
Qed.

(** *** The tax-inclusive amount *)

Lemma tax_multiplier :
  JS.add (JS.of_Z 1) TAX_RATE = S754_finite false 4953959590107546 (-52).
Proof. vm_compute. reflexivity. Qed.

Lemma tax_round_arith (P U' q m' : Z) :
  0 < P -> 8 <= U' -> P * (2 * U') < 2 ^ 53 ->
  q * 2 ^ 52 <= P * 4953959590107546 * (2 * U') < (q + 1) * 2 ^ 52 ->
  (m' = q /\ 2 * (P * 4953959590107546 * (2 * U') - q * 2 ^ 52) <= 2 ^ 52) \/
  (m' = q + 1 /\ 2 ^ 52 <= 2 * (P * 4953959590107546 * (2 * U') - q * 2 ^ 52)) ->
  (2 * m' + 2 * U') / (2 * (2 * U')) = (11 * P + 5) / 10.
Proof.
  intros HP HU HPU [Hq1 Hq2] Hm.
  set (K := (11 * P + 5) / 10).
  assert (HK : 10 * K <= 11 * P + 5 <= 10 * K + 9).
  { subst K. pose proof (Z.div_mod (11 * P + 5) 10 ltac:(lia)).
    pose proof (Z.mod_pos_bound (11 * P + 5) 10 ltac:(lia)). lia. }
  change (2 ^ 53) with 9007199254740992 in HPU.
  change (2 ^ 52) with 4503599627370496 in Hq1, Hq2, Hm.
  assert (HKU : 11 * (P * U') <= 10 * (K * U') + 4 * U').
  { assert (11 * P * U' <= (10 * K + 4) * U') by (apply Z.mul_le_mono_nonneg_r; lia). lia. }
  assert (HKU' : 10 * (K * U') - 5 * U' <= 11 * (P * U')).
  { assert ((10 * K - 5) * U' <= 11 * P * U') by (apply Z.mul_le_mono_nonneg_r; lia). lia. }
  assert (Lo : (2 * K - 1) * U' <= q).
  { destruct (Z_le_gt_dec ((2 * K - 1) * U') q) as [|C]; [assumption|exfalso]. lia. }
  assert (Hi : m' < (2 * K + 1) * U').
  { destruct (Z_lt_le_dec m' ((2 * K + 1) * U')) as [|C]; [assumption|exfalso]. lia. }
  symmetry. apply Z.div_unique with (2 * m' + 2 * U' - 2 * (2 * U') * K); lia.
Qed.

Lemma getTaxIncluded_below_2_49 (P : Z) :
  0 <= P < 511772684928466 ->
  getTaxIncluded (JS.of_Z P) = JS.of_Z ((11 * P + 5) / 10).
Proof.
  intros [H0 Hlt]. destruct (Z.eq_dec P 0) as [->|Hne]; [vm_compute; reflexivity|].
  destruct (of_Z_exact P) as (m & e & Hof & He & Hm & [Hm52 Hm53] & HPe).
  { change (2 ^ 53) with 9007199254740992. lia. }
  unfold getTaxIncluded. rewrite Hof.
  replace (JS.gt (S754_finite false m e) (JS.of_Z 0)) with true by reflexivity.
  rewrite tax_multiplier. unfold JS.mul, SFmul. cbn [xorb].
  set (pM := (m * 4953959590107546)%positive).
  assert (HM : Zpos pM = Zpos m * 4953959590107546) by (subst pM; apply Pos2Z.inj_mul).
  pose proof (digits2_pos_bounds pM) as [Blo Bhi].
  set (d := Zpos (digits2_pos pM)) in *.
  assert (Hd : d = 105 \/ d = 106).
  { assert (104 < d).
    { apply (Z.pow_lt_mono_r_iff 2); [lia | subst d; lia |].
      apply Z.le_lt_trans with (Zpos pM); [|assumption].
      rewrite HM. change (2 ^ 104) with (2 ^ 52 * 2 ^ 52).
      change (2 ^ 52) with 4503599627370496 in *. nia. }
    assert (d - 1 < 106).
    { apply (Z.pow_lt_mono_r_iff 2); [lia | lia |].
      apply Z.le_lt_trans with (Zpos pM); [assumption|].
      rewrite HM. change (2 ^ 106) with (2 ^ 53 * 2 ^ 53).
      change (2 ^ 53) with 9007199254740992 in *. nia. }
    lia. }
  (* the product stays below 2^49 *)
  assert (Hde : d + e <= 101).
  { assert (d - 1 < 101 - e); [|lia].
    apply (Z.pow_lt_mono_r_iff 2); [lia | lia |].
    apply Z.le_lt_trans with (Zpos pM); [assumption|].
    rewrite HM, Hm. replace (101 - e) with (101 + - e) by lia.
    rewrite Z.pow_add_r by lia.
    replace (P * 2 ^ (- e) * 4953959590107546) with (P * 4953959590107546 * 2 ^ (- e)) by ring.
    apply Z.mul_lt_mono_pos_r; [apply pow2_pos; lia|].
    change (2 ^ 101) with 2535301200456458802993406410752. lia. }
  destruct (binary_round_aux_normal false pM (e + -52)) as (m' & Hnear & _ & Hcase);
    fold d; try lia.
  cbv zeta in Hnear. fold d in Hnear, Hcase.
  set (n := d - 53) in *.
  set (q := Zpos pM / 2 ^ n) in *.
  set (e0 := e + -52 + n) in *.
  assert (He0 : e0 <= -4) by (subst e0 n; lia).
  (* the unit in the last place is 1/U with U = 2 * U' *)
  set (U' := 2 ^ (- e0 - 1)).
  assert (HU : 2 ^ (- e0) = 2 * U').
  { subst U'. replace (- e0) with (Z.succ (- e0 - 1)) at 1 by lia.
    apply Z.pow_succ_r. lia. }
  assert (HU8 : 8 <= U').
  { subst U'. change 8 with (2 ^ 3). apply Z.pow_le_mono_r; lia. }
  assert (Hscale : 2 ^ (- e) * 2 ^ 52 = 2 * U' * 2 ^ n).
  { rewrite <- HU, <- !Z.pow_add_r by (subst n; lia). f_equal. subst e0. lia. }
  assert (Hn : 0 < 2 ^ n) by (apply pow2_pos; subst n; lia).
  assert (H52 : 0 < 2 ^ 52) by (apply pow2_pos; lia).
  assert (Hq : q * 2 ^ n <= Zpos pM < (q + 1) * 2 ^ n).
  { subst q. pose proof (Z.div_mod (Zpos pM) (2 ^ n) ltac:(lia)).
    pose proof (Z.mod_pos_bound (Zpos pM) (2 ^ n) Hn). lia. }
  set (N := P * 4953959590107546 * (2 * U')).
  assert (EQ : Zpos pM * 2 ^ 52 = N * 2 ^ n).
  { subst N. rewrite HM, Hm.
    replace (P * 2 ^ (- e) * 4953959590107546 * 2 ^ 52)
      with (P * 4953959590107546 * (2 ^ (- e) * 2 ^ 52)) by ring.
    rewrite Hscale. ring. }
  assert (EQ' : (Zpos pM - q * 2 ^ n) * 2 ^ 52 = (N - q * 2 ^ 52) * 2 ^ n).
  { rewrite !Z.mul_sub_distr_r, EQ. ring. }
  assert (Hq' : q * 2 ^ 52 <= N < (q + 1) * 2 ^ 52).
  { split.
    - apply (Z.mul_le_mono_pos_r _ _ (2 ^ n) Hn). rewrite <- EQ.
      replace (q * 2 ^ 52 * 2 ^ n) with (q * 2 ^ n * 2 ^ 52) by ring.
      apply Z.mul_le_mono_nonneg_r; lia.
    - apply (Z.mul_lt_mono_pos_r (2 ^ n) _ _ Hn). rewrite <- EQ.
      replace ((q + 1) * 2 ^ 52 * 2 ^ n) with ((q + 1) * 2 ^ n * 2 ^ 52) by ring.
      apply Z.mul_lt_mono_pos_r; lia. }
  assert (Hnear' : (Zpos m' = q /\ 2 * (N - q * 2 ^ 52) <= 2 ^ 52) \/
                   (Zpos m' = q + 1 /\ 2 ^ 52 <= 2 * (N - q * 2 ^ 52))).
  { destruct Hnear as [[Hmq Hr] | [Hmq Hr]]; [left | right]; (split; [assumption|]).
    - apply (Z.mul_le_mono_pos_r _ _ (2 ^ n) Hn).
      replace (2 * (N - q * 2 ^ 52) * 2 ^ n) with (2 * ((N - q * 2 ^ 52) * 2 ^ n)) by ring.
      rewrite <- EQ'.
      replace (2 * ((Zpos pM - q * 2 ^ n) * 2 ^ 52))
        with (2 * (Zpos pM - q * 2 ^ n) * 2 ^ 52) by ring.
      rewrite (Z.mul_comm (2 ^ 52)). apply Z.mul_le_mono_nonneg_r; lia.
    - apply (Z.mul_le_mono_pos_r _ _ (2 ^ n) Hn).
      replace (2 * (N - q * 2 ^ 52) * 2 ^ n) with (2 * ((N - q * 2 ^ 52) * 2 ^ n)) by ring.
      rewrite <- EQ'.
      replace (2 * ((Zpos pM - q * 2 ^ n) * 2 ^ 52))
        with (2 * (Zpos pM - q * 2 ^ n) * 2 ^ 52) by ring.
      rewrite (Z.mul_comm (2 ^ 52)). apply Z.mul_le_mono_nonneg_r; lia. }
  assert (HPU : P * (2 * U') < 2 ^ 53).
  { rewrite <- HU.
    apply Z.lt_le_trans with (2 ^ (e + 53) * 2 ^ (- e0)).
    - apply Z.mul_lt_mono_pos_r; [apply pow2_pos; lia | assumption].
    - rewrite <- Z.pow_add_r by lia. apply Z.pow_le_mono_r; subst e0 n; lia. }
  pose proof (tax_round_arith P U' q (Zpos m') ltac:(lia) HU8 HPU Hq' Hnear') as HK.
  destruct Hcase as [[_ Hr] | [Hcarry Hr]]; rewrite Hr; unfold JS.Math_round.
  - replace (0 <=? e0) with false by (symmetry; apply Z.leb_gt; lia).
    unfold cond_Zopp. rewrite HU, HK. reflexivity.
  - replace (0 <=? e0 + 1) with false by (symmetry; apply Z.leb_gt; lia).
    unfold cond_Zopp. replace (- (e0 + 1)) with (- e0 - 1) by lia. fold U'.
    rewrite <- HK, Hcarry.
    change (2 ^ 53) with (2 * Zpos (2 ^ 52)).
    replace (2 * (2 * Zpos (2 ^ 52)) + 2 * U') with (2 * (2 * Zpos (2 ^ 52) + U')) by ring.
    rewrite Z.div_mul_cancel_l by lia. reflexivity.
Qed.

Lemma getTaxIncluded_of_Z (P : Z) :
  0 <= P < 511772684928474 ->
  getTaxIncluded (JS.of_Z P) = JS.of_Z ((11 * P + 5) / 10).
Proof.
  intros [H0 Hlt].
  destruct (Z_lt_le_dec P 511772684928466) as [Hs | Hl].
  - apply getTaxIncluded_below_2_49; lia.
  - assert (C : P = 511772684928466 \/ P = 511772684928467 \/ P = 511772684928468 \/
                P = 511772684928469 \/ P = 511772684928470 \/ P = 511772684928471 \/
                P = 511772684928472 \/ P = 511772684928473) by lia.
    repeat (destruct C as [-> | C]; [vm_compute; reflexivity|]).
    subst P. vm_compute. reflexivity.
Qed.

Lemma spec_taxIncluded_nearest (P : Z) :
  0 <= P ->
  10 * spec_taxIncluded P - 5 <= 11 * P < 10 * spec_taxIncluded P + 5.
Proof.
  intros HP. unfold spec_taxIncluded. destruct (0 <? P) eqn:E.
  - pose proof (Z.div_mod (11 * P + 5) 10 ltac:(lia)).
    pose proof (Z.mod_pos_bound (11 * P + 5) 10 ltac:(lia)). lia.
  - apply Z.ltb_ge in E. lia.
Qed.

(** C3 (amended).  For every integer price 0 <= P < 511772684928474 the
    number [getTaxIncluded] returns is exactly round(P * 1.1), halves
    upwards, for P > 0 and 0 for P = 0: the result is the number that
    represents [spec_taxIncluded P], which is the integer nearest to
    11P/10.  The bound is the first price at which double rounding of
    [P * 1.1] crosses a half. *)
Theorem tax_included_rounds (P : Z) :
  0 <= P < 511772684928474 ->
  getTaxIncluded (JS.of_Z P) = JS.of_Z (spec_taxIncluded P) /\
  JS.integer_value (getTaxIncluded (JS.of_Z P)) = Some (spec_taxIncluded P) /\
  10 * spec_taxIncluded P - 5 <= 11 * P < 10 * spec_taxIncluded P + 5.
Proof.
  intros HP.
  assert (E : (11 * P + 5) / 10 = spec_taxIncluded P).
  { unfold spec_taxIncluded. destruct (0 <? P) eqn:E0; [reflexivity|].
    apply Z.ltb_ge in E0. assert (P = 0) as -> by lia. reflexivity. }
  pose proof (spec_taxIncluded_nearest P ltac:(lia)) as Hn.
  rewrite getTaxIncluded_of_Z, E by assumption.
  split; [reflexivity|]. split; [|assumption].
  apply integer_value_of_Z. change (2 ^ 53) with 9007199254740992. lia.
Qed.

(** C3, witness: the first initial price, 980. *)
Lemma tax_included_rounds_witness :
  getTaxIncluded (JS.of_Z 980) = JS.of_Z (spec_taxIncluded 980) /\
  JS.integer_value (getTaxIncluded (JS.of_Z 980)) = Some (spec_taxIncluded 980) /\
  10 * spec_taxIncluded 980 - 5 <= 11 * 980 < 10 * spec_taxIncluded 980 + 5.
Proof. apply (tax_included_rounds 980). lia. Defined.

(** C3, as stated, fails at the price 511772684928474, which the number
    type represents exactly: the code returns 562949953421322 where
    round(P * 1.1) is 562949953421321. *)
Lemma tax_included_counterexample :
  JS.integer_value (JS.of_Z 511772684928474) = Some 511772684928474 /\
  JS.integer_value (getTaxIncluded (JS.of_Z 511772684928474)) = Some 562949953421322 /\
  spec_taxIncluded 511772684928474 = 562949953421321.
Proof. vm_compute. repeat split. Qed.

(** C8 (amended).  [sanitizeDigits] returns exactly the decimal digits of
    its input in their order; the numeric price of an item is the number
    nearest to the natural number N its sanitized price denotes, which is
    N itself whenever N <= 2^53, and 0 when the sanitized price is
    empty. *)
Theorem price_sanitized_and_parsed :
  (forall value : string,
      list_ascii_of_string (sanitizeDigits value)
      = filter Str.is_digit (list_ascii_of_string value) /\
      Str.subseq (list_ascii_of_string (sanitizeDigits value))
                 (list_ascii_of_string value) /\
      Str.all_digits (sanitizeDigits value) = true) /\
  (forall it : MenuItem,
      let N := Str.decimal_value (sanitizeDigits (price it)) in
      priceValue (computeItem it) = JS.or_else (JS.of_Z N) (JS.of_Z 0) /\
      (N <= 2 ^ 53 -> JS.integer_value (priceValue (computeItem it)) = Some N) /\
      (sanitizeDigits (price it) = "" -> priceValue (computeItem it) = JS.of_Z 0)).
Proof.
  split.
  - intros value. split; [apply sanitizeDigits_filter|]. split.
    + rewrite sanitizeDigits_filter. apply filter_subseq.
    + apply sanitizeDigits_all_digits.
  - intros it N. split; [apply priceValue_eq|]. split.
    + apply priceValue_exact.
    + intros Hempty. rewrite priceValue_eq, Hempty. reflexivity.
Qed.

(** C8, as stated, fails for the price text 9007199254740993: the numeric
    price is 9007199254740992. *)
Lemma price_parsed_counterexample :
  let it := {| id := "item-1"; name := ""; price := "9007199254740993" |} in
  Str.decimal_value (sanitizeDigits (price it)) = 9007199254740993 /\
  JS.integer_value (priceValue (computeItem it)) = Some 9007199254740992.
Proof. vm_compute. split; reflexivity. Qed.

(** *** The stored prices *)

Lemma handleNameChange_prices (target value : string) (items : list MenuItem) :
  map price (handleNameChange target value items) = map price items.
Proof.
  unfold handleNameChange. rewrite map_map. apply map_ext.
  intros it. destruct (id it =? target)%string; reflexivity.
Qed.

Lemma handlePriceChange_prices (target value : string) (items : list MenuItem) :
  Forall2 (fun old new => price new = price old \/ price new = sanitizeDigits value)
          items (handlePriceChange target value items).
Proof.
  unfold handlePriceChange. induction items as [|it rest IH]; cbn [map]; constructor.
  - destruct (id it =? target)%string; cbn [price]; auto.
  - exact IH.
Qed.

Lemma apply_event_digits_only (items : list MenuItem) (ev : form_event) :
  digits_only items -> digits_only (apply_event items ev).
Proof.
  unfold digits_only. intros H. destruct ev as [t v | t v]; cbn [apply_event].
  - unfold handleNameChange. apply Forall_map.
    eapply Forall_impl; [|exact H]. intros it Hit.
    destruct (id it =? t)%string; exact Hit.
  - unfold handlePriceChange. apply Forall_map.
    eapply Forall_impl; [|exact H]. intros it Hit.
    destruct (id it =? t)%string; [apply sanitizeDigits_all_digits | exact Hit].
Qed.

Lemma run_events_digits_only (evs : list form_event) : digits_only (run_events evs).
Proof.
  unfold run_events.
  assert (G : forall items, digits_only items ->
                            digits_only (fold_left apply_event evs items)).
  { induction evs as [|ev evs IH]; intros items H; cbn [fold_left]; [assumption|].
    apply IH, apply_event_digits_only, H. }
  apply G. repeat constructor.
Qed.

Lemma sanitizeDigits_fixpoint (s : string) :
  Str.all_digits s = true -> sanitizeDigits s = s.
Proof.
  unfold sanitizeDigits, Str.all_digits.
  induction s as [|a rest IH]; [reflexivity|].
  cbn [list_ascii_of_string forallb Str.replace_all Str.class_matches].
  intros H. apply andb_true_iff in H. destruct H as [Ha Hrest].
  rewrite Ha. cbn [negb]. rewrite IH by assumption. reflexivity.
Qed.

(** C10 (amended).  In every state reachable from the initial two items by
    name-change and price-change events every stored price consists of
    decimal digits only (a name change leaves the prices as they are, a
    price change stores the sanitized text); hence the derived numeric
    price is never NaN and never negative: it is a non-negative integer,
    or Infinity when the digits denote a number beyond the range of the
    number type. *)
Theorem stored_prices_are_digits (evs : list form_event) :
  Forall (fun it => Str.all_digits (price it) = true) (run_events evs) /\
  Forall (fun c =>
            priceValue c = JS.Infinity \/
            exists n, 0 <= n /\ JS.integer_value (priceValue c) = Some n)
         (computedItems (run_events evs)) /\
  (forall target value items,
      map price (handleNameChange target value items) = map price items) /\
  (forall target value items,
      Forall2 (fun old new => price new = price old \/ price new = sanitizeDigits value)
              items (handlePriceChange target value items)).
Proof.
  split; [apply run_events_digits_only|].
  split; [|split; [apply handleNameChange_prices | apply handlePriceChange_prices]].
  unfold computedItems. apply Forall_map.
  eapply Forall_impl; [|apply run_events_digits_only].
  intros it Hit. cbv beta. rewrite priceValue_eq.
  apply price_of_Z_shape, decimal_value_nonneg, sanitizeDigits_all_digits.
Qed.

(** C10, as stated, fails after typing [huge_price] into the first price
    field: the stored price is digits only, yet the numeric price is
    Infinity, which is no integer. *)
Lemma stored_prices_counterexample :
  map (fun c => (Str.all_digits (price (item c)), priceValue c))
      (computedItems (run_events [PriceChange "item-1" huge_price]))
  = [(true, JS.Infinity); (true, JS.of_Z 888)] /\
  JS.integer_value JS.Infinity = None.
Proof. vm_compute. split; reflexivity. Qed.

(** ** The auto-fit text sizer *)

Section AutoFitProofs.

Variable scrollHeight : TextNode -> JS.number.
Variable node0 : TextNode.
Variables min max : Z.
Variable available : JS.number.

Let rendered (s : Z) : JS.number := scrollHeight (set_fontSize node0 s).
Let fits (s : Z) : bool := JS.le (rendered s) available.

Hypothesis range : min <= max.

Hypothesis monotone :
  forall s s', min <= s -> s <= s' -> s' <= max ->
               JS.le (rendered s) (rendered s') = true.

Lemma set_fontSize_parent (node : TextNode) (s : Z) :
  parentElement node = parentElement node0 ->
  set_fontSize node s = set_fontSize node0 s.
Proof. intros E. unfold set_fontSize. rewrite E. reflexivity. Qed.

Lemma fits_downward (s s' : Z) :
  min <= s -> s <= s' -> s' <= max -> fits s' = true -> fits s = true.
Proof.
  intros H1 H2 H3 F. unfold fits in *.
  apply le_trans with (rendered s'); [apply monotone; assumption | assumption].
Qed.

Lemma fits_upward (s s' : Z) :
  min <= s -> s <= s' -> s' <= max -> fits s = false -> fits s' = false.
Proof.
  intros H1 H2 H3 F. destruct (fits s') eqn:F'; [|reflexivity].
  rewrite (fits_downward s s' H1 H2 H3 F') in F. discriminate.
Qed.

Lemma midpoint_bounds (low high : Z) :
  low <= high -> low <= (low + high) / 2 <= high.
Proof.
  intros H. pose proof (Z.div_mod (low + high) 2 ltac:(lia)).
  pose proof (Z.mod_pos_bound (low + high) 2 ltac:(lia)). lia.
Qed.

(** The loop invariant, with enough fuel for the range that is left: every size below [low] fits, no size above [high]
    fits, and [best] is the last size below [low] (or [min] when there is
    none). *)
Lemma fit_loop_spec (fuel : nat) :
  forall (low high best : Z) (node : TextNode),
    parentElement node = parentElement node0 ->
    min <= low -> high <= max -> low <= high + 1 ->
    (Z.to_nat (high - low + 1) < fuel)%nat ->
    (forall s, min <= s < low -> fits s = true) ->
    (forall s, high < s <= max -> fits s = false) ->
    (low = min /\ best = min) \/ (min < low /\ best = low - 1) ->
    exists node' S,
      fit_loop scrollHeight fuel available node low high best = Some (node', S) /\
      parentElement node' = parentElement node0 /\
      min <= S <= max /\
      ((S = min /\ forall s, min <= s <= max -> fits s = false) \/
       (fits S = true /\ (S = max \/ fits (S + 1) = false))).
Proof.
  induction fuel as [|fuel IH]; intros low high best node Hp Hlo Hhi Hord Hfuel Hbelow Habove Hbest;
    [lia|].
  cbn [fit_loop]. destruct (low <=? high) eqn:Hcmp.
  - apply Z.leb_le in Hcmp.
    pose proof (midpoint_bounds low high Hcmp) as Hmid.
    set (mid := (low + high) / 2) in *.
    rewrite (set_fontSize_parent node mid Hp).
    change (JS.le (scrollHeight (set_fontSize node0 mid)) available) with (fits mid).
    destruct (fits mid) eqn:Fmid.
    + apply IH; try lia; try reflexivity.
      * intros s Hs. apply (fits_downward s mid); try lia. assumption.
      * assumption.
    + apply IH; try lia; try reflexivity; try assumption.
      intros s Hs. apply (fits_upward mid s); try lia. assumption.
  - apply Z.leb_gt in Hcmp. exists node, best.
    split; [reflexivity|]. split; [assumption|].
    destruct Hbest as [[-> ->] | [Hgt ->]].
    + split; [lia|]. left. split; [reflexivity|].
      intros s Hs. apply Habove. lia.
    + split; [lia|]. right. split; [apply Hbelow; lia|].
      destruct (Z.eq_dec (low - 1) max) as [|Hne]; [left; assumption|].
      right. apply Habove. lia.
Qed.

End AutoFitProofs.

Lemma gt_zero_false_guard (x : JS.number) :
  JS.gt x (JS.of_Z 0) = false ->
  negb (JS.truthy x) || JS.le x (JS.of_Z 0) = true.
Proof.
  destruct x as [s|s| |s m e]; try destruct s; cbn; intros H; try discriminate; reflexivity.
Qed.

(** The two early returns: without a parent, or without positive available
    height (zero, negative or NaN), [fit] leaves the node as it is. *)
Lemma fit_early_return
    (scrollHeight : TextNode -> JS.number) (node : TextNode) (min max : Z) :
  match parentElement node with
  | None => True
  | Some parent => JS.gt (availableHeight parent) (JS.of_Z 0) = false
  end ->
  fit scrollHeight min max node = Some node.
Proof.
  unfold fit. destruct (parentElement node) as [parent|]; [|reflexivity].
  intros H. rewrite (gt_zero_false_guard _ H). reflexivity.
Qed.

Lemma fit_searches
    (scrollHeight : TextNode -> JS.number) (node : TextNode) (parent : ParentBox)
    (min max : Z) :
  parentElement node = Some parent ->
  min <= max ->
  JS.gt (availableHeight parent) (JS.of_Z 0) = true ->
  (forall s, min <= s <= max ->
             JS.is_nan (scrollHeight (set_fontSize node s)) = false) ->
  (forall s s', min <= s -> s <= s' -> s' <= max ->
                JS.le (scrollHeight (set_fontSize node s))
                      (scrollHeight (set_fontSize node s')) = true) ->
  exists S,
    fit scrollHeight min max node = Some (set_fontSize node S) /\
    min <= S <= max /\
    ((exists s, min <= s <= max /\
                JS.le (scrollHeight (set_fontSize node s)) (availableHeight parent) = true) ->
     JS.le (scrollHeight (set_fontSize node S)) (availableHeight parent) = true /\
     (S = max \/
      JS.gt (scrollHeight (set_fontSize node (S + 1))) (availableHeight parent) = true)) /\
    ((forall s, min <= s <= max ->
                JS.le (scrollHeight (set_fontSize node s)) (availableHeight parent) = false) ->
     S = min).
Proof.
  intros Hparent Hrange Hguard Hnan Hmono.
  destruct (gt_zero_guard _ Hguard) as (Htruthy & Hle0 & HnanH).
  destruct (fit_loop_spec scrollHeight node min max (availableHeight parent)
              Hrange Hmono (fit_fuel min max)
              min max min node eq_refl) as (node' & S & Hloop & Hp' & HS & Hcases);
    try lia.
  { unfold fit_fuel. lia. }
  exists S. unfold fit. rewrite Hparent, Htruthy, Hle0. cbn [negb orb].
  rewrite Hloop. split.
  { f_equal. apply set_fontSize_parent. assumption. }
  split; [assumption|]. split.
  - intros (s & Hs & Fs).
    destruct Hcases as [[_ Hnone] | [Hfit Hnext]].
    + rewrite (Hnone s Hs) in Fs. discriminate.
    + split; [exact Hfit|]. destruct Hnext as [|Hnext]; [left; assumption|].
      destruct (Z.eq_dec S max) as [|Hne]; [left; assumption|]. right.
      apply not_le_gt; try assumption. apply Hnan. lia.
  - intros Hnone. destruct Hcases as [[HSmin _] | [Hfit _]]; [assumption|].
    rewrite (Hnone S HS) in Hfit. discriminate.
Qed.


Lemma sample_layout_monotone (node : TextNode) (s s' : Z) :
  s <= s' ->
  JS.le (sample_layout (set_fontSize node s)) (sample_layout (set_fontSize node s')) = true.
Proof.
  intros Hle. cbn.
  destruct (s <=? 100) eqn:E, (s' <=? 100) eqn:E'; try (vm_compute; reflexivity).
  apply Z.leb_gt in E. apply Z.leb_le in E'. lia.
Qed.



Example sample_fit :
  fit sample_layout 48 220 sample_node = Some (set_fontSize sample_node 100).
Proof. vm_compute. reflexivity. Qed.

(** ** The page scale fitter *)

Lemma scaleFor_spec (W H : JS.number) : scaleFor W H = spec_scale W H.
Proof. unfold scaleFor, spec_scale, PAGE_WIDTH, PAGE_HEIGHT. reflexivity. Qed.

Lemma le_one_one : JS.le (JS.of_Z 1) (JS.of_Z 1) = true.
Proof. vm_compute. reflexivity. Qed.

Lemma min_step_le_one (lowest v : JS.number) :
  JS.le lowest (JS.of_Z 1) = true -> JS.le (JS.min_step lowest v) (JS.of_Z 1) = true.
Proof.
  intros Hl. unfold JS.min_step.
  assert (G : JS.le (if JS.lt v lowest then v else lowest) (JS.of_Z 1) = true).
  { destruct (JS.lt v lowest) eqn:E; [|assumption].
    apply le_trans with lowest; [apply lt_le|]; assumption. }
  destruct lowest as [[]| | |]; try exact G.
  destruct v as [[]| | |]; exact G.
Qed.

Lemma Math_min_from_one (a b : JS.number) :
  JS.is_nan (JS.Math_min [JS.of_Z 1; a; b]) = false ->
  JS.le (JS.Math_min [JS.of_Z 1; a; b]) (JS.of_Z 1) = true.
Proof.
  unfold JS.Math_min. destruct (existsb JS.is_nan [JS.of_Z 1; a; b]); [discriminate|].
  intros _. cbn [fold_left].
  apply min_step_le_one, min_step_le_one. vm_compute. reflexivity.
Qed.

Lemma scaleFor_le_one (W H : JS.number) : JS.le (scaleFor W H) (JS.of_Z 1) = true.
Proof.
  unfold scaleFor.
  set (v := JS.Math_min _).
  destruct (JS.isFinite v && JS.gt v (JS.of_Z 0)) eqn:E; [|apply le_one_one].
  apply andb_true_iff in E. destruct E as [Hfin _].
  apply Math_min_from_one. fold v. destruct v; try reflexivity; discriminate.
Qed.

Lemma scaleFor_nan (W H : JS.number) :
  JS.is_nan W = true \/ JS.is_nan H = true -> scaleFor W H = JS.of_Z 1.
Proof.
  intros Hnan. unfold scaleFor, JS.Math_min.
  assert (E : existsb JS.is_nan
                [JS.of_Z 1; JS.div W (JS.of_Z PAGE_WIDTH); JS.div H (JS.of_Z PAGE_HEIGHT)] = true).
  { cbn [existsb]. destruct Hnan as [Hw | Hh].
    - destruct W; try discriminate. reflexivity.
    - destruct H; try discriminate.
      destruct (JS.is_nan (JS.div W (JS.of_Z PAGE_WIDTH))); reflexivity. }
  rewrite E. reflexivity.
Qed.

Lemma scaleFor_non_finite (W H : JS.number) :
  JS.isFinite W = false -> JS.isFinite H = false -> scaleFor W H = JS.of_Z 1.
Proof.
  destruct W as [| [] | |], H as [| [] | |]; intros Hw Hh; try discriminate;
    vm_compute; reflexivity.
Qed.

Lemma run_updateScale_le_one (observations : list (option Stage * bool)) :
  JS.le (run_updateScale observations) (JS.of_Z 1) = true.
Proof.
  unfold run_updateScale.
  assert (G : forall s, JS.le s (JS.of_Z 1) = true ->
                        JS.le (fold_left (fun s o => updateScale (fst o) (snd o) s)
                                         observations s) (JS.of_Z 1) = true).
  { induction observations as [|[stage page] rest IH]; intros s Hs; cbn [fold_left];
      [assumption|].
    apply IH. cbn [fst snd]. unfold updateScale.
    destruct stage as [st|]; [destruct page|]; try assumption. apply scaleFor_le_one. }
  apply G, le_one_one.
Qed.

Lemma Math_max_zero_clamp (x : JS.number) :
  JS.is_nan (JS.Math_max [JS.of_Z 0; x]) = true \/
  JS.le (JS.of_Z 0) (JS.Math_max [JS.of_Z 0; x]) = true.
Proof.
  unfold JS.Math_max. destruct (existsb JS.is_nan [JS.of_Z 0; x]); [left; reflexivity|].
  right. cbn [fold_left].
  replace (JS.max_step (S754_infinity true) (JS.of_Z 0)) with (JS.of_Z 0) by reflexivity.
  change (JS.max_step (JS.of_Z 0) x) with (if JS.gt x (JS.of_Z 0) then x else JS.of_Z 0).
  destruct (JS.gt x (JS.of_Z 0)) eqn:E; [apply lt_le; exact E | reflexivity].
Qed.

(** C2.  The scale handed to [setPageScale] is min(1, W/794, H/1123) when
    that is a finite positive number and 1 otherwise, W and H being the
    available extents; (800, 1200) gives 1, (397, 1123) gives 0.5, (0, 0)
    gives 1, and so do extents of which one is NaN or both are not
    finite; the extents are clamped at 0; and no page scale reachable
    from the initial state exceeds 1. *)
Theorem page_scale_fits :
  (forall W H, scaleFor W H = spec_scale W H) /\
  (forall stage s,
      updateScale (Some stage) true s
      = spec_scale (JS.Math_max [JS.of_Z 0;
                                 JS.sub (JS.of_Z (stage_clientWidth stage))
                                        (JS.add (stage_paddingLeft stage)
                                                (stage_paddingRight stage))])
                   (JS.Math_max [JS.of_Z 0;
                                 JS.sub (JS.of_Z (stage_clientHeight stage))
                                        (JS.add (stage_paddingTop stage)
                                                (stage_paddingBottom stage))])) /\
  scaleFor (JS.of_Z 800) (JS.of_Z 1200) = JS.of_Z 1 /\
  scaleFor (JS.of_Z 397) (JS.of_Z 1123) = JS.div (JS.of_Z 1) (JS.of_Z 2) /\
  scaleFor (JS.of_Z 0) (JS.of_Z 0) = JS.of_Z 1 /\
  (forall W H, JS.is_nan W = true \/ JS.is_nan H = true -> scaleFor W H = JS.of_Z 1) /\
  (forall W H, JS.isFinite W = false -> JS.isFinite H = false ->
               scaleFor W H = JS.of_Z 1) /\
  (forall stage,
      (JS.is_nan (stage_availableWidth stage) = true \/
       JS.le (JS.of_Z 0) (stage_availableWidth stage) = true) /\
      (JS.is_nan (stage_availableHeight stage) = true \/
       JS.le (JS.of_Z 0) (stage_availableHeight stage) = true)) /\
  (forall W H, JS.le (scaleFor W H) (JS.of_Z 1) = true) /\
  (forall observations, JS.le (run_updateScale observations) (JS.of_Z 1) = true).
Proof.
  split; [exact scaleFor_spec|].
  split; [intros stage s; cbn [updateScale]; apply scaleFor_spec|].
  split; [vm_compute; reflexivity|].
  split; [vm_compute; reflexivity|].
  split; [vm_compute; reflexivity|].
  split; [exact scaleFor_nan|].
  split; [exact scaleFor_non_finite|].
  split; [intros stage; split; apply Math_max_zero_clamp|].
  split; [exact scaleFor_le_one | exact run_updateScale_le_one].
Qed.

Example one_infinite_extent :
  scaleFor JS.Infinity (JS.of_Z 500) = JS.div (JS.of_Z 500) (JS.of_Z 1123).
Proof. vm_compute. reflexivity. Qed.

Example updateScale_sample :
  updateScale (Some {| stage_clientWidth := 429; stage_clientHeight := 1155;
                       stage_paddingLeft := JS.of_Z 16; stage_paddingRight := JS.of_Z 16;
                       stage_paddingTop := JS.of_Z 16; stage_paddingBottom := JS.of_Z 16 |})
              true (JS.of_Z 1)
  = JS.div (JS.of_Z 1) (JS.of_Z 2).
Proof. vm_compute. reflexivity. Qed.

(** ** The color history *)

Lemma commit_shape (c : string) (prev : list string) :
  commitColorToHistory c prev = c :: firstn 7 (filter (other_than c) prev).
Proof. reflexivity. Qed.

Lemma other_than_absent (c : string) (l : list string) :
  ~ In c l -> filter (other_than c) l = l.
Proof.
  induction l as [|x l IH]; intros Hn; [reflexivity|].
  cbn [filter]. unfold other_than at 1.
  destruct (String.eqb_spec x c) as [->|Hne].
  - exfalso. apply Hn. left. reflexivity.
  - cbn [negb]. rewrite IH; [reflexivity|]. intros Hin. apply Hn. right. exact Hin.
Qed.

Lemma other_than_removes (c : string) (l : list string) :
  ~ In c (filter (other_than c) l).
Proof.
  intros Hin. apply filter_In in Hin. destruct Hin as [_ H].
  unfold other_than in H. rewrite String.eqb_refl in H. discriminate.
Qed.

Lemma other_than_shrinks (c : string) (l : list string) :
  In c l -> (List.length (filter (other_than c) l) < List.length l)%nat.
Proof.
  induction l as [|x l IH]; intros Hin; [contradiction|].
  cbn [filter]. unfold other_than at 1.
  destruct (String.eqb_spec x c) as [->|Hne]; cbn [negb List.length].
  - pose proof (filter_length_le (other_than c) l). lia.
  - destruct Hin as [->|Hin]; [contradiction|]. specialize (IH Hin). lia.
Qed.

Lemma In_firstn {A : Type} (n : nat) (l : list A) (x : A) :
  In x (firstn n l) -> In x l.
Proof.
  revert l. induction n as [|n IH]; intros [|y l] H; cbn [firstn] in H; try contradiction.
  destruct H as [->|H]; [left; reflexivity | right; apply IH; exact H].
Qed.

Lemma NoDup_firstn_keeps {A : Type} (n : nat) (l : list A) :
  NoDup l -> NoDup (firstn n l).
Proof.
  revert l. induction n as [|n IH]; intros [|y l] H; cbn [firstn]; try constructor.
  - inversion H as [|? ? Hy Hl]; subst. intros Hin. apply Hy. eapply In_firstn; exact Hin.
  - inversion H; subst. apply IH. assumption.
Qed.

Lemma commit_once (c : string) (prev : list string) :
  count_occ string_dec (commitColorToHistory c prev) c = 1%nat.
Proof.
  rewrite commit_shape. cbn [count_occ].
  destruct (string_dec c c) as [_|Hne]; [|contradiction].
  f_equal. apply count_occ_not_In. intros Hin.
  apply In_firstn in Hin. exact (other_than_removes c prev Hin).
Qed.

Lemma commit_keeps_all (c : string) (prev : list string) :
  In c prev -> (List.length prev <= 8)%nat ->
  commitColorToHistory c prev = c :: filter (other_than c) prev.
Proof.
  intros Hin Hlen. rewrite commit_shape. f_equal. apply firstn_all2.
  pose proof (other_than_shrinks c prev Hin). lia.
Qed.

Lemma commit_capped (c : string) (prev : list string) :
  (List.length (commitColorToHistory c prev) <= MAX_COLOR_HISTORY)%nat.
Proof. unfold commitColorToHistory. apply firstn_le_length. Qed.

Lemma commit_ok (c : string) (prev : list string) :
  NoDup prev -> history_ok (commitColorToHistory c prev).
Proof.
  intros Hnd. split; [apply commit_capped|].
  unfold commitColorToHistory. apply NoDup_firstn_keeps. constructor.
  - apply other_than_removes.
  - apply NoDup_filter. exact Hnd.
Qed.

Lemma commit_all_ok (colors : list string) :
  forall h, history_ok h -> history_ok (commit_all colors h).
Proof.
  unfold commit_all. induction colors as [|c colors IH]; intros h Hh; cbn [fold_left];
    [assumption|].
  apply IH, commit_ok. destruct Hh as [_ Hnd]. exact Hnd.
Qed.

Lemma commit_all_snoc (colors : list string) (c : string) (h : list string) :
  commit_all (colors ++ [c]) h = commitColorToHistory c (commit_all colors h).
Proof. unfold commit_all. rewrite fold_left_app. reflexivity. Qed.

Lemma commit_all_capped (colors : list string) (h : list string) :
  colors <> [] -> (List.length (commit_all colors h) <= MAX_COLOR_HISTORY)%nat.
Proof.
  intros Hne. destruct (exists_last Hne) as (front & c & ->).
  rewrite commit_all_snoc. apply commit_capped.
Qed.

(** Committing pairwise distinct colors to the empty history keeps the
    last eight, most recent first. *)
Lemma commit_all_distinct (colors : list string) :
  NoDup colors -> commit_all colors [] = firstn 8 (rev colors).
Proof.
  induction colors as [|c colors IH] using rev_ind; intros Hnd; [reflexivity|].
  rewrite commit_all_snoc, rev_app_distr. cbn [rev app].
  apply NoDup_remove in Hnd. rewrite app_nil_r in Hnd. destruct Hnd as [Hnd Hnotin].
  rewrite IH by assumption. rewrite commit_shape.
  rewrite other_than_absent.
  - change (firstn 8 (c :: rev colors)) with (c :: firstn 7 (rev colors)).
    f_equal. rewrite firstn_firstn. reflexivity.
  - intros Hin. apply In_firstn in Hin. apply Hnotin. apply in_rev. exact Hin.
Qed.

(** C4.  Committing a color C that is already in the history puts C in
    front, once, followed by the other entries in their order (all of
    them when the history was within the cap); and nine commits of
    pairwise distinct colors to the empty history leave exactly eight
    entries, the last eight most recent first, without the first one. *)
Theorem color_commit_moves_to_front :
  (forall (history : list string) (C : string),
      In C history ->
      commitColorToHistory C history
      = C :: firstn 7 (filter (fun color => negb (String.eqb color C)) history) /\
      count_occ string_dec (commitColorToHistory C history) C = 1%nat /\
      ((List.length history <= 8)%nat ->
       commitColorToHistory C history
       = C :: filter (fun color => negb (String.eqb color C)) history)) /\
  (forall colors : list string,
      NoDup colors -> List.length colors = 9%nat ->
      List.length (commit_all colors []) = 8%nat /\
      ~ In (hd "" colors) (commit_all colors []) /\
      commit_all colors [] = rev (tl colors)).
Proof.
  split.
  - intros history C Hin. split; [apply commit_shape|]. split; [apply commit_once|].
    intros Hlen. apply commit_keeps_all; assumption.
  - intros colors Hnd Hlen.
    assert (E : commit_all colors [] = rev (tl colors)).
    { rewrite commit_all_distinct by assumption.
      destruct colors as [|c0 rest]; [discriminate|]. cbn [tl rev].
      assert (Hr : List.length (rev rest) = 8%nat).
      { rewrite length_rev. cbn [List.length] in Hlen. lia. }
      rewrite firstn_app, Hr.
      change (firstn (8 - 8) [c0]) with (@nil string).
      rewrite app_nil_r. apply firstn_all2. lia. }
    rewrite E. destruct colors as [|c0 rest]; [discriminate|]. cbn [tl hd].
    split; [rewrite length_rev; cbn [List.length] in Hlen; lia|]. split; [|reflexivity].
    intros Hin. apply in_rev in Hin. inversion Hnd; subst. contradiction.
Qed.

Example nine_commits :
  commit_all ["#000001"; "#000002"; "#000003"; "#000004"; "#000005";
              "#000006"; "#000007"; "#000008"; "#000009"] []
  = ["#000009"; "#000008"; "#000007"; "#000006";
     "#000005"; "#000004"; "#000003"; "#000002"].
Proof. reflexivity. Qed.

Example recommit_moves :
  commitColorToHistory "#000002" ["#000003"; "#000002"; "#000001"]
  = ["#000002"; "#000003"; "#000001"].
Proof. reflexivity. Qed.

(** *** Startup load *)

Lemma load_total (host : Host) (log : Console) :
  exists l log', loadColorHistory host log = (Normal l, log').
Proof.
  unfold loadColorHistory. destruct (window host) as [w|]; [|eexists; eexists; reflexivity].
  unfold try_catch, bind, lift, ret, console_warn, modify.
  destruct (localStorage_getItem w COLOR_HISTORY_KEY) as [[[|a text]|]|e];
    try (eexists; eexists; reflexivity).
  destruct (JSON_parse host (String a text)) as [v|e]; [|eexists; eexists; reflexivity].
  destruct v as [| | | |[|x xs]|]; eexists; eexists; reflexivity.
Qed.

(** C6 (amended).  [loadColorHistory] never throws.  It returns the
    one-element default list when there is no window, when reading the
    store throws, when the key is absent or holds the empty text, when the
    text fails to parse (a warning is logged on the two failures), and
    when it parses to anything but a non-empty array; for a non-empty
    array it returns the string elements of the array in order. *)
Theorem load_color_history_cases :
  (forall host log, exists l log', loadColorHistory host log = (Normal l, log')) /\
  (forall host log,
      window host = None ->
      loadColorHistory host log = (Normal [DEFAULT_SHADOW_COLOR], log)) /\
  (forall host w log e,
      window host = Some w ->
      localStorage_getItem w COLOR_HISTORY_KEY = Throw e ->
      loadColorHistory host log
      = (Normal [DEFAULT_SHADOW_COLOR], (log ++ [LOAD_WARNING])%list)) /\
  (forall host w log stored,
      window host = Some w ->
      localStorage_getItem w COLOR_HISTORY_KEY = Normal stored ->
      stored = None \/ stored = Some "" ->
      loadColorHistory host log = (Normal [DEFAULT_SHADOW_COLOR], log)) /\
  (forall host w log text e,
      window host = Some w ->
      localStorage_getItem w COLOR_HISTORY_KEY = Normal (Some text) ->
      text <> "" ->
      JSON_parse host text = Throw e ->
      loadColorHistory host log
      = (Normal [DEFAULT_SHADOW_COLOR], (log ++ [LOAD_WARNING])%list)) /\
  (forall host w log text v,
      window host = Some w ->
      localStorage_getItem w COLOR_HISTORY_KEY = Normal (Some text) ->
      text <> "" ->
      JSON_parse host text = Normal v ->
      loadColorHistory host log
      = (Normal match v with
                | JArray ((_ :: _) as elems) => filter_strings elems
                | _ => [DEFAULT_SHADOW_COLOR]
                end, log)).
Proof.
  split; [exact load_total|].
  split.
  { intros host log Hw. unfold loadColorHistory. rewrite Hw. reflexivity. }
  split.
  { intros host w log e Hw Hget. unfold loadColorHistory. rewrite Hw.
    unfold try_catch, bind, lift. rewrite Hget. reflexivity. }
  split.
  { intros host w log stored Hw Hget Hs. unfold loadColorHistory. rewrite Hw.
    unfold try_catch, bind, lift. rewrite Hget.
    destruct Hs as [-> | ->]; reflexivity. }
  split.
  { intros host w log text e Hw Hget Hne Hparse. unfold loadColorHistory. rewrite Hw.
    unfold try_catch, bind, lift. rewrite Hget.
    destruct text as [|a text]; [contradiction|]. rewrite Hparse. reflexivity. }
  intros host w log text v Hw Hget Hne Hparse. unfold loadColorHistory. rewrite Hw.
  unfold try_catch, bind, lift. rewrite Hget.
  destruct text as [|a text]; [contradiction|]. rewrite Hparse.
  destruct v as [| | | |[|x xs]|]; reflexivity.
Qed.

Example load_what_was_written :
  loadColorHistory
    (host_storing (stringify_colors ["#ff0000"; "#57e8ff"])
                  (JArray [JString "#ff0000"; JString "#57e8ff"])) []
  = (Normal ["#ff0000"; "#57e8ff"], []).
Proof. reflexivity. Qed.

(** C6, as stated, fails on a store holding the text [1]: an array,
    malformed as a color list, for which the load returns the empty list
    rather than the default. *)
Lemma load_color_history_counterexample :
  loadColorHistory (host_storing "[1]" (JArray [JNumber (JS.of_Z 1)])) []
  = (Normal [], []) /\
  ([] : list string) <> [DEFAULT_SHADOW_COLOR].
Proof. split; [reflexivity | discriminate]. Qed.

Lemma history_after_load (host : Host) (colors initial : list string) (log : Console) :
  loadColorHistory host [] = (Normal initial, log) ->
  history_after host colors = Some (commit_all colors initial).
Proof. intros H. unfold history_after. rewrite H. reflexivity. Qed.

(** C5 (amended).  A commit keeps a duplicate-free history duplicate-free
    and within the cap of 8, so every history reached from a startup load
    that is itself within the cap and duplicate-free -- the default list
    in particular -- stays so under any sequence of commits; whatever the
    store held, the history is within the cap once a commit has been
    made. *)
Theorem color_history_invariant :
  (forall c h, NoDup h -> history_ok (commitColorToHistory c h)) /\
  history_ok [DEFAULT_SHADOW_COLOR] /\
  (forall host colors initial log,
      loadColorHistory host [] = (Normal initial, log) ->
      history_ok initial ->
      history_after host colors = Some (commit_all colors initial) /\
      history_ok (commit_all colors initial)) /\
  (forall host colors h,
      colors <> [] ->
      history_after host colors = Some h ->
      (List.length h <= MAX_COLOR_HISTORY)%nat).
Proof.
  split; [exact commit_ok|].
  split; [split; [unfold MAX_COLOR_HISTORY; cbn [List.length]; lia
                 | repeat constructor; intros []]|].
  split.
  - intros host colors initial log Hload Hok.
    split; [eapply history_after_load; exact Hload | apply commit_all_ok; exact Hok].
  - intros host colors h Hne Hafter. unfold history_after in Hafter.
    destruct (fst (loadColorHistory host [])) as [initial|e]; [|discriminate].
    injection Hafter as <-. apply commit_all_capped. exact Hne.
Qed.

(** C5, as stated, fails on stored content that is not itself within the
    cap and free of duplicates: a stored list with a repeated color is
    loaded with the repetition, which a later commit of another color
    keeps; a stored list of nine colors is loaded with nine entries. *)
Lemma color_history_counterexample :
  let twice := ["#111111"; "#111111"] in
  let host2 := host_storing (stringify_colors twice)
                            (JArray [JString "#111111"; JString "#111111"]) in
  let host9 := host_storing (stringify_colors nine_colors)
                            (JArray (map JString nine_colors)) in
  history_after host2 [] = Some twice /\
  ~ NoDup twice /\
  history_after host2 ["#222222"] = Some ["#222222"; "#111111"; "#111111"] /\
  history_after host9 [] = Some nine_colors /\
  List.length nine_colors = 9%nat.
Proof.
  cbv zeta. split; [reflexivity|]. split.
  - intros H. inversion H as [|? ? Hnotin _]; subst. apply Hnotin. left. reflexivity.
  - repeat split; reflexivity.
Qed.

(** ** The export adapter *)

(** *** The file name *)

Lemma digit_char_is_digit (n : Z) : Str.is_digit (digit_char n) = true.
Proof.
  unfold Str.is_digit, digit_char.
  pose proof (Z.mod_pos_bound n 10 ltac:(lia)) as Hb.
  rewrite N_ascii_embedding by lia.
  apply andb_true_iff. split; apply N.leb_le; lia.
Qed.

Lemma digit_char_value (n : Z) : Str.digit_value (digit_char n) = n mod 10.
Proof.
  unfold Str.digit_value, digit_char.
  pose proof (Z.mod_pos_bound n 10 ltac:(lia)) as Hb.
  rewrite N_ascii_embedding by lia. lia.
Qed.

Lemma all_digits_app (s1 s2 : string) :
  Str.all_digits (s1 ++ s2) = Str.all_digits s1 && Str.all_digits s2.
Proof.
  unfold Str.all_digits. induction s1 as [|a s1 IH]; [reflexivity|].
  cbn [append list_ascii_of_string forallb]. rewrite IH. apply andb_assoc.
Qed.

Lemma length_app (s1 s2 : string) :
  String.length (s1 ++ s2) = (String.length s1 + String.length s2)%nat.
Proof. induction s1 as [|a s1 IH]; cbn [append String.length]; [reflexivity | rewrite IH; reflexivity]. Qed.

Lemma string_app_assoc (s1 s2 s3 : string) : (s1 ++ s2) ++ s3 = s1 ++ (s2 ++ s3).
Proof. induction s1 as [|a s1 IH]; cbn [append]; [reflexivity | rewrite IH; reflexivity]. Qed.

Lemma fixed_digits_all_digits (w : nat) : forall n, Str.all_digits (fixed_digits w n) = true.
Proof.
  induction w as [|w IH]; intros n; [reflexivity|].
  cbn [fixed_digits]. rewrite all_digits_app, IH.
  unfold Str.all_digits. cbn [list_ascii_of_string forallb].
  rewrite digit_char_is_digit. reflexivity.
Qed.

Lemma fixed_digits_length (w : nat) : forall n, String.length (fixed_digits w n) = w.
Proof.
  induction w as [|w IH]; intros n; [reflexivity|].
  cbn [fixed_digits]. rewrite length_app, IH. cbn [String.length]. lia.
Qed.

Lemma decimal_from_app (s1 s2 : string) :
  forall acc, Str.decimal_from acc (s1 ++ s2) = Str.decimal_from (Str.decimal_from acc s1) s2.
Proof.
  induction s1 as [|a s1 IH]; intros acc; [reflexivity|].
  cbn [append Str.decimal_from]. apply IH.
Qed.

(** [fixed_digits w n] is the decimal numeral of [n] on [w] digits. *)
Lemma fixed_digits_value (w : nat) :
  forall n acc, 0 <= n < 10 ^ Z.of_nat w ->
                Str.decimal_from acc (fixed_digits w n) = acc * 10 ^ Z.of_nat w + n.
Proof.
  induction w as [|w IH]; intros n acc Hn.
  - cbn in *. lia.
  - cbn [fixed_digits]. rewrite decimal_from_app.
    rewrite Nat2Z.inj_succ, Z.pow_succ_r in * by lia.
    rewrite IH.
    + cbn [Str.decimal_from]. rewrite digit_char_value.
      pose proof (Z.div_mod n 10 ltac:(lia)). lia.
    + split; [apply Z.div_pos; lia|]. apply Z.div_lt_upper_bound; lia.
Qed.

Lemma replace_all_app (c : Str.char_class) (s1 s2 : string) :
  Str.replace_all c "" (s1 ++ s2) = Str.replace_all c "" s1 ++ Str.replace_all c "" s2.
Proof.
  induction s1 as [|a s1 IH]; [reflexivity|].
  cbn [append Str.replace_all]. destruct (Str.class_matches c a); cbn [append]; rewrite IH; reflexivity.
Qed.

Lemma separators_keep_digits (s : string) :
  Str.all_digits s = true -> Str.replace_all separators "" s = s.
Proof.
  unfold Str.all_digits. induction s as [|a s IH]; [reflexivity|].
  cbn [list_ascii_of_string forallb]. intros H.
  apply andb_true_iff in H. destruct H as [Ha Hs].
  cbn [Str.replace_all]. rewrite IH by assumption.
  replace (Str.class_matches separators a) with false; [reflexivity|].
  symmetry. unfold separators. cbn [Str.class_matches existsb].
  unfold Str.is_digit in Ha. apply andb_true_iff in Ha. destruct Ha as [H1 H2].
  apply N.leb_le in H1, H2.
  repeat match goal with
         | |- context [Ascii.eqb a ?c] =>
             destruct (Ascii.eqb_spec a c) as [->|_]; [cbn in H1, H2; lia|]
         end.
  reflexivity.
Qed.

Lemma slice0_app (s1 s2 : string) :
  Str.slice0 (String.length s1) (s1 ++ s2) = s1.
Proof.
  unfold Str.slice0. induction s1 as [|a s1 IH]; cbn [append String.length substring].
  - destruct s2; reflexivity.
  - rewrite IH. reflexivity.
Qed.

Lemma stamp_digits_length (now : Date) : String.length (stamp_digits now) = 12%nat.
Proof. unfold stamp_digits. rewrite !length_app, !fixed_digits_length. reflexivity. Qed.

Lemma stamp_digits_all_digits (now : Date) : Str.all_digits (stamp_digits now) = true.
Proof. unfold stamp_digits. rewrite !all_digits_app, !fixed_digits_all_digits. reflexivity. Qed.

Lemma timestamp_four_digit_year (now : Date) :
  0 <= year now <= 9999 -> timestamp now = stamp_digits now.
Proof.
  intros Hy. unfold timestamp, toISOString.
  replace ((0 <=? year now) && (year now <=? 9999)) with true
    by (symmetry; apply andb_true_iff; split; apply Z.leb_le; lia).
  rewrite !replace_all_app.
  rewrite !(separators_keep_digits (fixed_digits _ _)) by apply fixed_digits_all_digits.
  cbn [Str.replace_all Str.class_matches separators existsb Ascii.eqb Bool.eqb orb append].
  set (rest := fixed_digits 2 (seconds now) ++ _).
  transitivity (Str.slice0 (String.length (stamp_digits now)) (stamp_digits now ++ rest)).
  - rewrite stamp_digits_length. unfold stamp_digits.
    rewrite !string_app_assoc. reflexivity.
  - apply slice0_app.
Qed.

Lemma timestamp_negative_year (now : Date) :
  year now < 0 ->
  timestamp now
  = fixed_digits 6 (- year now) ++ fixed_digits 2 (month now)
      ++ fixed_digits 2 (day now) ++ fixed_digits 2 (hours now).
Proof.
  intros Hy. unfold timestamp, toISOString.
  replace ((0 <=? year now) && (year now <=? 9999)) with false
    by (symmetry; apply andb_false_iff; left; apply Z.leb_gt; lia).
  replace (year now <? 0) with true by (symmetry; apply Z.ltb_lt; lia).
  rewrite !replace_all_app.
  rewrite !(separators_keep_digits (fixed_digits _ _)) by apply fixed_digits_all_digits.
  cbn [Str.replace_all Str.class_matches separators existsb Ascii.eqb Bool.eqb orb append].
  set (stamp := fixed_digits 6 (- year now) ++ fixed_digits 2 (month now)
                  ++ fixed_digits 2 (day now) ++ fixed_digits 2 (hours now)).
  set (rest := fixed_digits 2 (minutes now) ++ _).
  assert (Hlen : String.length stamp = 12%nat).
  { subst stamp. rewrite !length_app, !fixed_digits_length. reflexivity. }
  transitivity (Str.slice0 (String.length stamp) (stamp ++ rest)).
  - rewrite Hlen. subst stamp. rewrite !string_app_assoc. reflexivity.
  - apply slice0_app.
Qed.

Lemma timestamp_large_year (now : Date) :
  9999 < year now ->
  timestamp now
  = "+" ++ fixed_digits 6 (year now) ++ fixed_digits 2 (month now)
      ++ fixed_digits 2 (day now) ++ String (digit_char (hours now / 10)) "".
Proof.
  intros Hy. unfold timestamp, toISOString.
  replace ((0 <=? year now) && (year now <=? 9999)) with false
    by (symmetry; apply andb_false_iff; right; apply Z.leb_gt; lia).
  replace (year now <? 0) with false by (symmetry; apply Z.ltb_ge; lia).
  rewrite !replace_all_app.
  rewrite !(separators_keep_digits (fixed_digits _ _)) by apply fixed_digits_all_digits.
  cbn [Str.replace_all Str.class_matches separators existsb Ascii.eqb Bool.eqb orb append].
  change (fixed_digits 2 (hours now))
    with (String (digit_char (hours now / 10)) (String (digit_char (hours now)) "")).
  set (stamp := String "+" (fixed_digits 6 (year now) ++ fixed_digits 2 (month now)
                  ++ fixed_digits 2 (day now) ++ String (digit_char (hours now / 10)) "")).
  set (rest := String (digit_char (hours now)) "" ++ fixed_digits 2 (minutes now)
                 ++ fixed_digits 2 (seconds now)
                 ++ String "." (fixed_digits 3 (milliseconds now) ++ "Z")).
  assert (Hlen : String.length stamp = 12%nat).
  { subst stamp. cbn [String.length]. rewrite !length_app, !fixed_digits_length. reflexivity. }
  transitivity (Str.slice0 (String.length stamp) (stamp ++ rest)).
  - rewrite Hlen. subst stamp rest. cbn [append]. rewrite !string_app_assoc. reflexivity.
  - apply slice0_app.
Qed.

Lemma timestamp_length (now : Date) : String.length (timestamp now) = 12%nat.
Proof.
  destruct (Z_lt_le_dec (year now) 0) as [Hneg | Hpos].
  - rewrite timestamp_negative_year by assumption.
    rewrite !length_app, !fixed_digits_length. reflexivity.
  - destruct (Z_le_gt_dec (year now) 9999) as [Hle | Hgt].
    + rewrite timestamp_four_digit_year by lia. apply stamp_digits_length.
    + rewrite timestamp_large_year by lia.
      cbn [append String.length]. rewrite !length_app, !fixed_digits_length. reflexivity.
Qed.

Lemma stamp_digits_value (now : Date) :
  valid_date now = true -> 0 <= year now <= 9999 ->
  Str.decimal_value (stamp_digits now)
  = (((year now * 100 + month now) * 100 + day now) * 100 + hours now) * 100 + minutes now.
Proof.
  intros Hv Hy. unfold valid_date in Hv.
  repeat match goal with
         | H : _ && _ = true |- _ => apply andb_true_iff in H; destruct H
         | H : (_ <=? _) = true |- _ => apply Z.leb_le in H
         end.
  unfold Str.decimal_value, stamp_digits.
  rewrite !decimal_from_app.
  rewrite !fixed_digits_value by (cbn; lia).
  cbn. lia.
Qed.

(** *** Cleanup and failure *)

Lemma px_width : px PAGE_WIDTH = "794px".
Proof. vm_compute. reflexivity. Qed.

Lemma px_height : px PAGE_HEIGHT = "1123px".
Proof. vm_compute. reflexivity. Qed.

Lemma finally_restores {A : Type} (body : M Browser A) (style : Style) (b : Browser) :
  page_style (snd (try_finally body (set_page_style (fun _ => style)) b)) = style.
Proof.
  unfold try_finally, set_page_style, modify. destruct (body b) as [c b']. reflexivity.
Qed.

Lemma handleDownload_outcome (host : ExportHost) (b : Browser) :
  fst (handleDownload host true b) = Normal tt /\
  page_style (snd (handleDownload host true b)) = page_style b /\
  match domToPng host (capture_style (page_style b)) with
  | Normal dataUrl =>
      let link := {| download := download_name (clock host); href := dataUrl |} in
      anchors (snd (handleDownload host true b)) = (anchors b ++ [link])%list /\
      downloads (snd (handleDownload host true b)) = (downloads b ++ [link])%list /\
      alerts (snd (handleDownload host true b)) = alerts b /\
      console_errors (snd (handleDownload host true b)) = console_errors b
  | Throw _ =>
      anchors (snd (handleDownload host true b)) = anchors b /\
      downloads (snd (handleDownload host true b)) = downloads b /\
      alerts (snd (handleDownload host true b)) = (alerts b ++ [EXPORT_FAILED])%list /\
      console_errors (snd (handleDownload host true b))
      = (console_errors b ++ ["Download Error:"])%list
  end.
Proof.
  destruct b as [style anch dls errs alts].
  cbv [handleDownload negb try_finally try_catch bind get lift style_set set_page_style
       modify createElement_a click console_error alert ret
       page_style anchors downloads console_errors alerts].
  rewrite px_width, px_height.
  fold (capture_style style).
  destruct (domToPng host (capture_style style)); repeat split; reflexivity.
Qed.

(** C7.  On a mounted page element [handleDownload] completes normally and
    leaves the inline style exactly as it found it, whether the capture
    resolves or rejects -- the cleanup restores it after any protected
    block; when the capture rejects, one alert is shown, one console error
    is logged, and no anchor is created and no download started; when it
    resolves, one anchor is created and clicked, with the timestamped
    name. *)
Theorem export_restores_style (host : ExportHost) (b : Browser) :
  let result := handleDownload host true b in
  fst result = Normal tt /\
  page_style (snd result) = page_style b /\
  (forall (A : Type) (body : M Browser A) (b' : Browser),
      page_style (snd (try_finally body (set_page_style (fun _ => page_style b)) b'))
      = page_style b) /\
  match domToPng host (capture_style (page_style b)) with
  | Normal dataUrl =>
      let link := {| download := download_name (clock host); href := dataUrl |} in
      anchors (snd result) = (anchors b ++ [link])%list /\
      downloads (snd result) = (downloads b ++ [link])%list /\
      alerts (snd result) = alerts b /\
      console_errors (snd result) = console_errors b
  | Throw _ =>
      anchors (snd result) = anchors b /\
      downloads (snd result) = downloads b /\
      alerts (snd result) = (alerts b ++ [EXPORT_FAILED])%list /\
      console_errors (snd result) = (console_errors b ++ ["Download Error:"])%list
  end.
Proof.
  cbv zeta.
  destruct (handleDownload_outcome host b) as (Hnormal & Hstyle & Hcases).
  split; [exact Hnormal|]. split; [exact Hstyle|].
  split; [intros A body b'; apply finally_restores | exact Hcases].
Qed.

Lemma handleDownload_unmounted (host : ExportHost) (b : Browser) :
  handleDownload host false b = (Normal tt, b).
Proof. reflexivity. Qed.

(** C9 (amended).  The timestamp T always has length 12.  When the current
    UTC year is within 0000..9999, T is the ISO timestamp's YYYYMMDDHHMM:
    four digits of the year and two each of month, day, hours and minutes,
    all decimal digits; read as a numeral it is the number
    YYYYMMDDHHMM for a valid date; and every successful export downloads
    the file named menu_T.png. *)
Theorem export_file_name :
  (forall now, String.length (timestamp now) = 12%nat) /\
  (forall now,
      0 <= year now <= 9999 ->
      timestamp now = stamp_digits now /\
      Str.all_digits (timestamp now) = true /\
      download_name now = "menu_" ++ stamp_digits now ++ ".png" /\
      (valid_date now = true ->
       Str.decimal_value (timestamp now)
       = (((year now * 100 + month now) * 100 + day now) * 100 + hours now) * 100
         + minutes now)) /\
  (forall host b dataUrl,
      domToPng host (capture_style (page_style b)) = Normal dataUrl ->
      downloads (snd (handleDownload host true b))
      = (downloads b ++ [{| download := "menu_" ++ timestamp (clock host) ++ ".png";
                            href := dataUrl |}])%list).
Proof.
  split; [exact timestamp_length|]. split.
  - intros now Hy. pose proof (timestamp_four_digit_year now Hy) as E.
    split; [exact E|]. split; [rewrite E; apply stamp_digits_all_digits|].
    split; [unfold download_name; rewrite E; reflexivity|].
    intros Hv. rewrite E. apply stamp_digits_value; assumption.
  - intros host b dataUrl Hok.
    pose proof (handleDownload_outcome host b) as H.
    rewrite Hok in H. destruct H as (_ & _ & _ & Hd & _). exact Hd.
Qed.

(** C9, as stated, fails at the first instant of the year 10000: the ISO
    timestamp then starts with a sign and T is not made of digits only. *)
Lemma export_file_name_counterexample :
  valid_date year_10000 = true /\
  toISOString year_10000 = "+010000-01-01T00:00:00.000Z" /\
  timestamp year_10000 = "+01000001010" /\
  Str.all_digits (timestamp year_10000) = false.
Proof. repeat split. Qed.

Example sample_download_name : download_name sample_date = "menu_202611020905.png".
Proof. reflexivity. Qed.

(** ** Further properties of the component *)

(** ** The form: what the item list holds *)

Lemma run_events_from (evs : list form_event) :
  forall n1 p1 n2 p2,
    fold_left apply_event evs
      [ {| id := "item-1"; name := n1; price := p1 |};
        {| id := "item-2"; name := n2; price := p2 |} ]
    = [ {| id := "item-1"; name := last_name "item-1" evs n1;
           price := last_price "item-1" evs p1 |};
        {| id := "item-2"; name := last_name "item-2" evs n2;
           price := last_price "item-2" evs p2 |} ].
Proof.
  induction evs as [|ev evs IH]; intros n1 p1 n2 p2; [reflexivity|].
  destruct ev as [t v | t v];
    cbn [fold_left apply_event handleNameChange handlePriceChange map id name price
         last_name last_price];
    destruct (String.eqb "item-1" t), (String.eqb "item-2" t); apply IH.
Qed.

(** X1. Whatever is typed into the form, in any order, the item list keeps
    its two items with their ids and order, and each field holds the last
    value typed into that field of that item -- all of it for a name, its
    digits for a price.  Edits addressed to another id change nothing. *)
Theorem form_last_write_wins (evs : list form_event) :
  run_events evs
  = [ {| id := "item-1";
         name := last_name "item-1" evs "メニュー１";
         price := last_price "item-1" evs "980" |};
      {| id := "item-2";
         name := last_name "item-2" evs "メニュー２";
         price := last_price "item-2" evs "888" |} ].
Proof. apply run_events_from. Qed.

(** X2. The inputs are controlled by the state they write: handing an
    item's stored name or stored price back to its own change handler
    leaves every reachable item list exactly as it is. *)
Theorem form_fields_round_trip (evs : list form_event) :
  Forall (fun it =>
            handleNameChange (id it) (name it) (run_events evs) = run_events evs /\
            handlePriceChange (id it) (price it) (run_events evs) = run_events evs)
         (run_events evs).
Proof.
  pose proof (run_events_digits_only evs) as Hd.
  unfold run_events, initialItems in *. rewrite run_events_from in *.
  unfold digits_only in Hd.
  inversion Hd as [|a l Ha Hl]; subst. inversion Hl as [|b l' Hb _]; subst.
  cbn [price] in Ha, Hb.
  repeat constructor;
    cbn [handleNameChange handlePriceChange map id name price];
    rewrite ?(sanitizeDigits_fixpoint _ Ha), ?(sanitizeDigits_fixpoint _ Hb);
    reflexivity.
Qed.

(** X3. The preview renders one entry per visible item: with a count of
    one always the item [item-1], with two both items in order, each
    computed from what the form currently holds. *)
Theorem rendered_items (evs : list form_event) (visibleCount : VisibleCount) :
  map (fun c => id (item c)) (itemsToRender visibleCount (run_events evs))
  = firstn (count_of visibleCount) ["item-1"; "item-2"] /\
  List.length (itemsToRender visibleCount (run_events evs)) = count_of visibleCount /\
  Forall (fun c => In (item c) (run_events evs) /\ c = computeItem (item c))
         (itemsToRender visibleCount (run_events evs)).
Proof.
  unfold itemsToRender, run_events, initialItems. rewrite run_events_from.
  destruct visibleCount; cbn [count_of computedItems map firstn List.length];
    (split; [reflexivity | split; [reflexivity|]]);
    repeat (apply Forall_cons || apply Forall_nil);
    (split; [cbn; tauto | reflexivity]).
Qed.

(** ** The preview: what is shown for a price *)

(** Rounding an exact positive mantissa of at least 53 bits anywhere at or
    above the subnormal threshold: the result overflows to infinity, or
    is finite with a mantissa not below the truncated one (at the
    exponent raised by the dropped bits), or carries into the next
    binade. *)
Lemma binary_round_aux_wide (s : bool) (p : positive) (E : Z) :
  53 <= Zpos (digits2_pos p) ->
  -1074 <= E + (Zpos (digits2_pos p) - 53) ->
  let n := Zpos (digits2_pos p) - 53 in
  let q := Zpos p / 2 ^ n in
  let x := binary_round_aux JS.prec JS.emax s (Zpos p) E loc_Exact in
  2 ^ 52 <= q < 2 ^ 53 /\
  (x = S754_infinity s \/
   (exists m', x = S754_finite s m' (E + n) /\ q <= Zpos m') \/
   x = S754_finite s (2 ^ 52)%positive (E + n + 1)).
Proof.
  intros Hd Hlo.
  set (d := Zpos (digits2_pos p)) in *.
  destruct (shr_fexp_exact p E Hd Hlo) as (r1 & Hr1 & Hsh). fold d in Hr1, Hsh.
  pose proof (digits2_pos_bounds p) as [Blo Bhi]. fold d in Blo, Bhi.
  cbv zeta. set (n := d - 53) in *.
  assert (Hn0 : 0 <= n) by (subst n; lia).
  pose proof (shifted_div _ _ _ Hn0 Hsh) as Hq.
  set (q := Zpos p / 2 ^ n) in *.
  assert (Hpow : 0 < 2 ^ n) by (apply pow2_pos; lia).
  assert (Hq52 : 2 ^ 52 <= q).
  { apply Z.div_le_lower_bound; [assumption|].
    rewrite <- Z.pow_add_r by lia. replace (n + 52) with (d - 1) by (subst n; lia). assumption. }
  assert (Hq53 : q < 2 ^ 53).
  { apply Z.div_lt_upper_bound; [assumption|].
    rewrite <- Z.pow_add_r by lia. replace (n + 53) with d by (subst n; lia). assumption. }
  split; [split; assumption|].
  set (m1 := round_nearest_even (shr_m r1) (loc_of_shr_record r1)).
  assert (Hnear : q <= m1 <= q + 1).
  { subst m1. rewrite <- Hq. apply round_nearest_even_range. }
  destruct m1 as [|m'|m'] eqn:Em1; [lia | | lia].
  unfold binary_round_aux. rewrite Hr1. fold m1. rewrite Em1.
  destruct (Z_lt_le_dec (Zpos m') (2 ^ 53)) as [Hlt | Hge].
  - assert (Hd' : Zpos (digits2_pos m') = 53) by (apply digits2_pos_unique; lia).
    destruct (shr_fexp_exact m' (E + n)) as (r2 & Hr2 & Hsh2); try lia.
    rewrite Hd' in Hr2, Hsh2. replace (E + n + (53 - 53)) with (E + n) in Hr2 by lia.
    rewrite Hr2, (shifted_0 _ _ Hsh2). cbn [shr_m].
    destruct (E + n <=? JS.emax - JS.prec); [right; left | left; reflexivity].
    exists m'. split; [reflexivity | lia].
  - assert (Em' : Zpos m' = 2 ^ 53) by lia.
    assert (m' = (2 ^ 53)%positive) as -> by (apply Pos2Z.inj; rewrite Em'; reflexivity).
    assert (D54 : Zpos (digits2_pos (2 ^ 53)) = 54) by (vm_compute; reflexivity).
    destruct (shr_fexp_exact (2 ^ 53)%positive (E + n)) as (r2 & Hr2 & Hsh2);
      [rewrite D54; lia | rewrite D54; lia |].
    rewrite D54 in Hr2, Hsh2.
    rewrite Hr2, (shifted_div (Zpos (2 ^ 53)) (54 - 53) r2 ltac:(lia) Hsh2).
    replace (Zpos (2 ^ 53) / 2 ^ (54 - 53)) with (Zpos (2 ^ 52)) by (vm_compute; reflexivity).
    destruct (E + n + (54 - 53) <=? JS.emax - JS.prec); [right; right | left; reflexivity].
    f_equal; lia.
Qed.

Lemma at_least_one_positive (x : JS.number) :
  at_least_one x -> JS.gt x (JS.of_Z 0) = true /\ JS.truthy x = true.
Proof.
  destruct x as [s|[]| |[] m e]; cbn [at_least_one]; intros H; try contradiction;
    split; reflexivity.
Qed.

(** Every integer from 1 on converts to a number that is at least one. *)
Lemma of_Z_at_least_one (N : Z) : 1 <= N -> at_least_one (JS.of_Z N).
Proof.
  intros HN. destruct (Z_lt_le_dec N (2 ^ 53)) as [Hs | Hl].
  - destruct (of_Z_exact N ltac:(lia)) as (m & e & -> & He & Hm & _ & _).
    cbn [at_least_one]. intros _. rewrite Hm.
    assert (0 < 2 ^ (- e)) by (apply pow2_pos; lia). nia.
  - destruct N as [|p|p]; try lia.
    pose proof (digits2_pos_bounds p) as [_ Bhi].
    assert (Hd : 53 < Zpos (digits2_pos p)).
    { apply (Z.pow_lt_mono_r_iff 2); lia. }
    unfold JS.of_Z, binary_normalize, binary_round. rewrite fexp_binary64.
    unfold shl_align.
    destruct (Z.max (Zpos (digits2_pos p) + 0 - 53) (-1074) - 0) as [|k|k] eqn:Ek; try lia.
    destruct (binary_round_aux_wide false p 0 ltac:(lia) ltac:(lia))
      as (_ & [-> | [(m' & -> & _) | ->]]); cbn [at_least_one]; try exact I; lia.
Qed.

(** [Math.round] keeps a number that is at least one at least one. *)
Lemma Math_round_at_least_one (x : JS.number) :
  at_least_one x -> at_least_one (JS.Math_round x).
Proof.
  destruct x as [s|[]| |[] m e]; cbn [at_least_one]; intros H; try contradiction;
    try exact I.
  unfold JS.Math_round. destruct (0 <=? e) eqn:Ee.
  - cbn [at_least_one]. apply Z.leb_le in Ee. lia.
  - apply Z.leb_gt in Ee. specialize (H Ee). unfold cond_Zopp.
    assert (Hp : 0 < 2 ^ (- e)) by (apply pow2_pos; lia).
    apply (of_Z_at_least_one ((2 * Zpos m + 2 ^ (- e)) / (2 * 2 ^ (- e)))).
    apply Z.div_le_lower_bound; lia.
Qed.

(** The product with the tax multiplier of a number that is at least one
    is at least one. *)
Lemma tax_product_at_least_one (v : JS.number) :
  at_least_one v -> at_least_one (JS.mul v (JS.add (JS.of_Z 1) TAX_RATE)).
Proof.
  rewrite tax_multiplier.
  destruct v as [s|[]| |[] m e]; cbn [at_least_one]; intros H; try contradiction;
    [exact I|].
  unfold JS.mul, SFmul. cbn [xorb].
  set (pM := (m * 4953959590107546)%positive).
  assert (HM : Zpos pM = Zpos m * 4953959590107546) by (subst pM; apply Pos2Z.inj_mul).
  pose proof (digits2_pos_bounds pM) as [Blo Bhi].
  set (d := Zpos (digits2_pos pM)) in *.
  assert (H52 : 2 ^ 52 = 4503599627370496) by reflexivity.
  (* the product is at least 2^52, and at least 2^(52 - e) below e = 0 *)
  assert (Hbig : 2 ^ 52 <= Zpos pM) by (rewrite H52; lia).
  assert (Hd : 53 <= d).
  { assert (52 < d); [|lia]. apply (Z.pow_lt_mono_r_iff 2); [lia | subst d; lia | lia]. }
  assert (Hval : e < 0 -> 2 ^ (52 - e) <= Zpos pM).
  { intros He. specialize (H He).
    replace (52 - e) with (- e + 52) by lia. rewrite Z.pow_add_r by lia.
    assert (0 < 2 ^ (- e)) by (apply pow2_pos; lia). rewrite H52, HM. nia. }
  assert (Hde : 0 <= e + d - 53).
  { destruct (Z_lt_le_dec e 0) as [He | He]; [|lia].
    assert (52 - e < d); [|lia].
    apply (Z.pow_lt_mono_r_iff 2); [lia | subst d; lia |].
    specialize (Hval He). lia. }
  destruct (binary_round_aux_wide false pM (e + -52)) as ([Hq52 Hq53] & Hcase);
    fold d; try lia.
  cbv zeta in Hcase. fold d in Hcase, Hq52, Hq53.
  set (n := d - 53) in *. set (q := Zpos pM / 2 ^ n) in *.
  assert (Hn : 0 <= n) by (subst n; lia).
  destruct Hcase as [-> | [(m' & -> & Hm') | ->]]; cbn [at_least_one]; [exact I | |].
  - intros Hneg. apply Z.le_trans with q; [|exact Hm'].
    apply Z.le_trans with (2 ^ 52); [|exact Hq52].
    apply Z.pow_le_mono_r; subst n; lia.
  - intros Hneg. change (Zpos (2 ^ 52)) with (2 ^ 52).
    apply Z.pow_le_mono_r; subst n; lia.
Qed.

(** The tax-inclusive amount of a number that is at least one is at
    least one: positive, never zero, at any magnitude. *)
Lemma getTaxIncluded_at_least_one (v : JS.number) :
  at_least_one v -> at_least_one (getTaxIncluded v).
Proof.
  intros Hv. unfold getTaxIncluded.
  destruct (at_least_one_positive v Hv) as [-> _].
  apply Math_round_at_least_one, tax_product_at_least_one, Hv.
Qed.

Lemma priceValue_cases (it : MenuItem) :
  let N := Str.decimal_value (sanitizeDigits (price it)) in
  (N = 0 /\ priceValue (computeItem it) = JS.of_Z 0) \/
  (1 <= N /\ priceValue (computeItem it) = JS.of_Z N /\ at_least_one (JS.of_Z N)).
Proof.
  cbv zeta. rewrite priceValue_eq.
  pose proof (decimal_value_nonneg _ (sanitizeDigits_all_digits (price it))) as H0.
  set (N := Str.decimal_value (sanitizeDigits (price it))) in *.
  destruct (Z.eq_dec N 0) as [-> | Hne]; [left; split; reflexivity | right].
  pose proof (of_Z_at_least_one N ltac:(lia)) as Hone.
  split; [lia|]. split; [|exact Hone].
  unfold JS.or_else. destruct (at_least_one_positive _ Hone) as [_ ->]. reflexivity.
Qed.

(** X4. The preview never shows a bare yen sign.  For an item whose
    price digits denote zero (an empty price included) it shows the
    placeholder text and no tax line.  For every other price, of any
    length, it shows the printed price followed by the yen sign and a
    tax line with the printed tax-inclusive amount: both numbers are
    above zero, so [formatPrice] never falls back to the empty string. *)
Theorem preview_price_texts (NumberToString : JS.number -> string) (it : MenuItem) :
  let c := computeItem it in
  let shown := MenuPreview NumberToString c in
  (Str.decimal_value (sanitizeDigits (price it)) = 0 ->
   price_main shown = PRICE_UNDECIDED /\ price_tax shown = None) /\
  (Str.decimal_value (sanitizeDigits (price it)) <> 0 ->
   JS.gt (priceValue c) (JS.of_Z 0) = true /\
   JS.gt (taxIncluded c) (JS.of_Z 0) = true /\
   price_main shown = NumberToString (priceValue c) ++ "円" /\
   price_tax shown = Some ("（税込" ++ NumberToString (taxIncluded c) ++ "円）")).
Proof.
  cbv zeta. pose proof (priceValue_cases it) as Hcases. cbv zeta in Hcases.
  unfold MenuPreview, formatPrice. cbn [price_main price_tax].
  assert (Htax : taxIncluded (computeItem it) = getTaxIncluded (priceValue (computeItem it)))
    by reflexivity.
  rewrite Htax.
  destruct Hcases as [[HN ->] | (HN & -> & Hone)]; split; intros HN'; try lia.
  - split; reflexivity.
  - pose proof (getTaxIncluded_at_least_one _ Hone) as Htone.
    destruct (at_least_one_positive _ Hone) as [Hg Ht].
    destruct (at_least_one_positive _ Htone) as [Hgt _].
    rewrite Hg, Ht, Hgt. repeat split.
Qed.

(** ** From the typed price to the amounts shown *)

Lemma decimal_from_bound (s : string) :
  forall acc, 0 <= acc -> Str.all_digits s = true ->
              Str.decimal_from acc s < (acc + 1) * 10 ^ Z.of_nat (String.length s).
Proof.
  induction s as [|a rest IH]; intros acc Hacc Hd; cbn [Str.decimal_from String.length].
  - change (10 ^ Z.of_nat 0) with 1. lia.
  - unfold Str.all_digits in Hd. cbn [list_ascii_of_string forallb] in Hd.
    apply andb_true_iff in Hd. destruct Hd as [Ha Hrest].
    pose proof (digit_value_range a Ha) as Hr.
    specialize (IH (10 * acc + Str.digit_value a) ltac:(lia) Hrest).
    rewrite Nat2Z.inj_succ, Z.pow_succ_r by lia.
    assert (0 < 10 ^ Z.of_nat (String.length rest)) by (apply Z.pow_pos_nonneg; lia).
    nia.
Qed.

(** X5. End to end for prices of up to 14 digits: whatever text the
    stored price holds, the numeric price of the computed item is
    exactly the integer its digits denote, and the tax-inclusive amount
    is exactly that integer times 1.1 rounded half up. *)
Theorem computed_item_exact (it : MenuItem) :
  (String.length (sanitizeDigits (price it)) <= 14)%nat ->
  let N := Str.decimal_value (sanitizeDigits (price it)) in
  let c := computeItem it in
  priceValue c = JS.of_Z N /\
  JS.integer_value (priceValue c) = Some N /\
  taxIncluded c = JS.of_Z (spec_taxIncluded N) /\
  JS.integer_value (taxIncluded c) = Some (spec_taxIncluded N).
Proof.
  intros Hlen. cbv zeta.
  pose proof (sanitizeDigits_all_digits (price it)) as Hd.
  pose proof (decimal_value_nonneg _ Hd) as H0.
  pose proof (decimal_from_bound _ 0 ltac:(lia) Hd) as Hb.
  fold (Str.decimal_value (sanitizeDigits (price it))) in Hb.
  assert (Hpow : 10 ^ Z.of_nat (String.length (sanitizeDigits (price it))) <= 10 ^ 14).
  { apply Z.pow_le_mono_r; lia. }
  change (10 ^ 14) with 100000000000000 in Hpow.
  assert (Htax : taxIncluded (computeItem it) = getTaxIncluded (priceValue (computeItem it)))
    by reflexivity.
  rewrite Htax, priceValue_eq.
  set (N := Str.decimal_value (sanitizeDigits (price it))) in *.
  assert (Hval : JS.or_else (JS.of_Z N) (JS.of_Z 0) = JS.of_Z N).
  { destruct (Z.eq_dec N 0) as [-> | Hne]; [reflexivity|].
    unfold JS.or_else.
    destruct (at_least_one_positive _ (of_Z_at_least_one N ltac:(lia))) as [_ ->].
    reflexivity. }
  rewrite Hval.
  assert (Hspec : spec_taxIncluded N = (11 * N + 5) / 10).
  { unfold spec_taxIncluded. destruct (0 <? N) eqn:E; [reflexivity|].
    apply Z.ltb_ge in E. assert (N = 0) as -> by lia. reflexivity. }
  assert (HK : 0 <= (11 * N + 5) / 10 < 2 ^ 53).
  { split; [apply Z.div_pos; lia|].
    apply Z.div_lt_upper_bound; [lia|]. change (2 ^ 53) with 9007199254740992. lia. }
  rewrite Hspec, getTaxIncluded_of_Z by lia.
  split; [reflexivity|]. split; [|split; [reflexivity|]].
  - apply integer_value_of_Z. change (2 ^ 53) with 9007199254740992. lia.
  - apply integer_value_of_Z. exact HK.
Qed.

Lemma computed_item_exact_witness :
  let it := {| id := "item-1"; name := "メニュー１"; price := "1,280円" |} in
  priceValue (computeItem it) = JS.of_Z 1280 /\
  JS.integer_value (priceValue (computeItem it)) = Some 1280 /\
  taxIncluded (computeItem it) = JS.of_Z 1408 /\
  JS.integer_value (taxIncluded (computeItem it)) = Some 1408.
Proof.
  apply (computed_item_exact {| id := "item-1"; name := "メニュー１"; price := "1,280円" |}).
  vm_compute. lia.
Defined.

(** ** Auto-fit on an arbitrary layout *)

Section AutoFitAnyLayout.

Variable scrollHeight : TextNode -> JS.number.
Variable available : JS.number.

(** From its first probe on, the loop sees the node only through its
    parent: two nodes with the same parent are searched alike. *)
Lemma fit_loop_parent_only (fuel : nat) (n1 n2 : TextNode) (low high best : Z) :
  parentElement n1 = parentElement n2 -> low <= high ->
  fit_loop scrollHeight fuel available n1 low high best
  = fit_loop scrollHeight fuel available n2 low high best.
Proof.
  intros Hp Hle. destruct fuel as [|fuel]; [reflexivity|].
  cbn [fit_loop]. replace (low <=? high) with true by (symmetry; apply Z.leb_le; assumption).
  unfold set_fontSize. rewrite Hp. reflexivity.
Qed.

(** The loop ends within the fuel whenever the fuel exceeds the width of
    the range, on any layout; the node keeps its parent, and the size
    returned is the initial [best] or a probed size that fitted. *)
Lemma fit_loop_any (fuel : nat) :
  forall (node : TextNode) (low high best : Z),
    (Z.to_nat (high - low + 1) < fuel)%nat ->
    exists node' S,
      fit_loop scrollHeight fuel available node low high best = Some (node', S) /\
      parentElement node' = parentElement node /\
      (S = best \/
       (low <= S <= high /\
        JS.le (scrollHeight (set_fontSize node S)) available = true)).
Proof.
  induction fuel as [|fuel IH]; intros node low high best Hfuel; [lia|].
  cbn [fit_loop]. destruct (low <=? high) eqn:Hle.
  - apply Z.leb_le in Hle.
    assert (Hmid : low <= (low + high) / 2 <= high).
    { split; [apply Z.div_le_lower_bound | apply Z.div_le_upper_bound]; lia. }
    set (mid := (low + high) / 2) in *.
    destruct (JS.le (scrollHeight (set_fontSize node mid)) available) eqn:Hfit.
    + destruct (IH (set_fontSize node mid) (mid + 1) high mid ltac:(lia))
        as (node' & S & Hrun & Hpar & HS).
      exists node', S. split; [exact Hrun|]. split; [exact Hpar|].
      right. destruct HS as [-> | [HS1 HS2]]; [split; [lia | exact Hfit]|].
      split; [lia | exact HS2].
    + destruct (IH (set_fontSize node mid) low (mid - 1) best ltac:(lia))
        as (node' & S & Hrun & Hpar & HS).
      exists node', S. split; [exact Hrun|]. split; [exact Hpar|].
      destruct HS as [-> | [HS1 HS2]]; [left; reflexivity | right].
      split; [lia | exact HS2].
  - exists node, best. split; [reflexivity|]. split; [reflexivity|]. left. reflexivity.
Qed.

(** The search halves the range: [k] probes are enough for a range of
    fewer than [2^k] sizes. *)
Lemma fit_loop_halves (k : nat) :
  forall (node : TextNode) (low high best : Z),
    high - low + 1 < 2 ^ Z.of_nat k ->
    exists r, fit_loop scrollHeight (S k) available node low high best = Some r.
Proof.
  induction k as [|k IH]; intros node low high best Hw.
  - cbn [fit_loop]. replace (low <=? high) with false; [eexists; reflexivity|].
    symmetry. apply Z.leb_gt. change (2 ^ Z.of_nat 0) with 1 in Hw. lia.
  - remember (S k) as fuel eqn:Ef. cbn [fit_loop]. subst fuel.
    destruct (low <=? high) eqn:Hle; [|eexists; reflexivity].
    apply Z.leb_le in Hle.
    assert (Hpow : 2 ^ Z.of_nat (S k) = 2 * 2 ^ Z.of_nat k).
    { rewrite Nat2Z.inj_succ. apply Z.pow_succ_r. lia. }
    assert (Hmid : low <= (low + high) / 2 <= high).
    { split; [apply Z.div_le_lower_bound | apply Z.div_le_upper_bound]; lia. }
    pose proof (Z.div_mod (low + high) 2 ltac:(lia)) as Hdm.
    pose proof (Z.mod_pos_bound (low + high) 2 ltac:(lia)) as Hmb.
    set (mid := (low + high) / 2) in *.
    destruct (JS.le (scrollHeight (set_fontSize node mid)) available); apply IH; lia.
Qed.

End AutoFitAnyLayout.

(** X6. For sizes from 0 up to, and not including, 2^52 -- where every
    midpoint, sum and successor the loop computes is an exact binary64
    integer and every size a valid CSS length -- [fit] returns on every
    layout, whatever the measured heights are, monotone or not, NaN
    included: the binary search never outlasts its range.  It either
    leaves the node alone (no parent, or no positive height available)
    or sets a font size [S] which is [min] or a size within [min..max]
    that was measured to fit. *)
Theorem fit_any_layout
    (scrollHeight : TextNode -> JS.number) (node : TextNode) (min max : Z) :
  0 <= min < 2 ^ 52 ->
  0 <= max < 2 ^ 52 ->
  exists node',
    fit scrollHeight min max node = Some node' /\
    parentElement node' = parentElement node /\
    match parentElement node with
    | None => node' = node
    | Some parent =>
        if JS.gt (availableHeight parent) (JS.of_Z 0)
        then exists S,
            node' = set_fontSize node S /\
            (S = min \/
             (min <= S <= max /\
              JS.le (scrollHeight node') (availableHeight parent) = true))
        else node' = node
    end.
Proof.
  intros _ _.
  unfold fit. destruct (parentElement node) as [parent|] eqn:Hp.
  2:{ exists node. rewrite Hp. auto. }
  destruct (JS.gt (availableHeight parent) (JS.of_Z 0)) eqn:Hgt.
  - destruct (gt_zero_guard _ Hgt) as (Ht & Hle & _). rewrite Ht, Hle. cbn [negb orb].
    destruct (fit_loop_any scrollHeight (availableHeight parent) (fit_fuel min max)
                           node min max min) as (node' & S & Hrun & Hpar & HS).
    { unfold fit_fuel. lia. }
    rewrite Hrun. exists (set_fontSize node' S).
    assert (Hsame : set_fontSize node' S = set_fontSize node S).
    { unfold set_fontSize. rewrite Hpar. reflexivity. }
    split; [reflexivity|]. split; [cbn [set_fontSize parentElement]; congruence|].
    exists S. split; [exact Hsame|]. rewrite Hsame.
    destruct HS as [-> | HS]; [left; reflexivity | right; exact HS].
  - rewrite (gt_zero_false_guard _ Hgt). exists node. rewrite Hp. auto.
Qed.

Lemma fit_any_layout_witness :
  (0 <= 48 < 2 ^ 52) /\ (0 <= 220 < 2 ^ 52) /\
  exists node',
    fit sample_layout 48 220 sample_node = Some node' /\
    parentElement node' = parentElement sample_node /\
    match parentElement sample_node with
    | None => node' = sample_node
    | Some parent =>
        if JS.gt (availableHeight parent) (JS.of_Z 0)
        then exists S,
            node' = set_fontSize sample_node S /\
            (S = 48 \/
             (48 <= S <= 220 /\
              JS.le (sample_layout node') (availableHeight parent) = true))
        else node' = sample_node
    end.
Proof.
  assert (H48 : 0 <= 48 < 2 ^ 52) by (change (2 ^ 52) with 4503599627370496; lia).
  assert (H220 : 0 <= 220 < 2 ^ 52) by (change (2 ^ 52) with 4503599627370496; lia).
  split; [exact H48|]. split; [exact H220|].
  exact (fit_any_layout sample_layout sample_node 48 220 H48 H220).
Defined.

(** X7. The search is logarithmic.  For sizes from 0 up to, and not
    including, 2^52 -- where the loop's integers are exact binary64
    values -- and on any layout, a range of fewer than [2^k] sizes is
    settled after at most [k] probes: the loop leaves within [k + 1]
    evaluations of its condition.  The default range 48..220 takes at
    most 8 probes. *)
Theorem fit_probe_bound
    (scrollHeight : TextNode -> JS.number) (available : JS.number)
    (node : TextNode) (low high best : Z) (k : nat) :
  0 <= low < 2 ^ 52 ->
  0 <= high < 2 ^ 52 ->
  high - low + 1 < 2 ^ Z.of_nat k ->
  exists (node' : TextNode) (size : Z),
    fit_loop scrollHeight (S k) available node low high best = Some (node', size).
Proof.
  intros _ _ Hw.
  destruct (fit_loop_halves scrollHeight available k node low high best Hw)
    as [[node' size] Hr].
  exists node', size. exact Hr.
Qed.

Lemma fit_probe_bound_witness :
  (0 <= 48 < 2 ^ 52) /\ (0 <= 220 < 2 ^ 52) /\
  220 - 48 + 1 < 2 ^ Z.of_nat 8 /\
  exists (node' : TextNode) (size : Z),
    fit_loop sample_layout 9 (availableHeight sample_parent) sample_node 48 220 48
    = Some (node', size).
Proof.
  assert (H48 : 0 <= 48 < 2 ^ 52) by (change (2 ^ 52) with 4503599627370496; lia).
  assert (H220 : 0 <= 220 < 2 ^ 52) by (change (2 ^ 52) with 4503599627370496; lia).
  assert (Hw : 220 - 48 + 1 < 2 ^ Z.of_nat 8) by (vm_compute; reflexivity).
  split; [exact H48|]. split; [exact H220|]. split; [exact Hw|].
  exact (fit_probe_bound sample_layout (availableHeight sample_parent)
                         sample_node 48 220 48 8 H48 H220 Hw).
Defined.

(** X8. [fit] is stable: run again on the node it produced -- as the
    resize observer, the window resize listener and the font-loading
    promise do -- it returns that node unchanged, on any layout. *)
Theorem fit_stable
    (scrollHeight : TextNode -> JS.number) (node node' : TextNode) (min max : Z) :
  fit scrollHeight min max node = Some node' ->
  fit scrollHeight min max node' = Some node'.
Proof.
  unfold fit. destruct (parentElement node) as [parent|] eqn:Hp.
  2:{ intros [= <-]. rewrite Hp. reflexivity. }
  destruct (negb (JS.truthy (availableHeight parent))
            || JS.le (availableHeight parent) (JS.of_Z 0)) eqn:Hguard.
  { intros [= <-]. rewrite Hp, Hguard. reflexivity. }
  destruct (fit_loop scrollHeight (fit_fuel min max) (availableHeight parent)
                     node min max min) as [[nodeL best]|] eqn:Hrun; [|discriminate].
  intros [= <-]. cbn [set_fontSize parentElement].
  destruct (fit_loop_any scrollHeight (availableHeight parent) (fit_fuel min max)
                         node min max min) as (n1 & S1 & Hrun1 & Hpar1 & _).
  { unfold fit_fuel. lia. }
  rewrite Hrun in Hrun1. injection Hrun1 as <- <-.
  rewrite Hpar1, Hp, Hguard.
  destruct (Z_le_gt_dec min max) as [Hle | Hgt].
  - rewrite (fit_loop_parent_only scrollHeight (availableHeight parent) (fit_fuel min max)
               _ node min max min); [|unfold set_fontSize; cbn [parentElement]; congruence | exact Hle].
    rewrite Hrun. unfold set_fontSize. cbn [parentElement]. congruence.
  - unfold fit_fuel in *. cbn [fit_loop] in *.
    replace (min <=? max) with false in * by (symmetry; apply Z.leb_gt; lia).
    injection Hrun as <- <-. unfold set_fontSize. cbn [parentElement]. congruence.
Qed.

Lemma fit_stable_witness :
  fit sample_layout 48 220 sample_node = Some (set_fontSize sample_node 100) /\
  fit sample_layout 48 220 (set_fontSize sample_node 100)
  = Some (set_fontSize sample_node 100).
Proof.
  split; [vm_compute; reflexivity|].
  apply (fit_stable sample_layout sample_node). vm_compute. reflexivity.
Defined.

(** ** The page scale: order facts and the two regimes *)

Lemma le_refl (a : JS.number) : JS.is_nan a = false -> JS.le a a = true.
Proof.
  unfold JS.le, SFleb, SFcompare.
  destruct a as [s|s| |s m e]; try destruct s; intros H; try discriminate;
    try reflexivity; compare_cases.
Qed.

Lemma not_gt_le (a b : JS.number) :
  JS.is_nan a = false -> JS.is_nan b = false ->
  JS.gt a b = false -> JS.le a b = true.
Proof.
  unfold JS.le, JS.gt, SFleb, SFltb, SFcompare.
  destruct a as [sa|sa| |sa ma ea], b as [sb|sb| |sb mb eb];
    try destruct sa; try destruct sb;
    intros H1 H2 H3; try discriminate; try reflexivity; compare_cases.
Qed.

Lemma le_not_gt (a b : JS.number) : JS.le a b = true -> JS.gt a b = false.
Proof.
  unfold JS.le, JS.gt, SFleb, SFltb, SFcompare.
  destruct a as [sa|sa| |sa ma ea], b as [sb|sb| |sb mb eb];
    try destruct sa; try destruct sb;
    intros H1; try discriminate; try reflexivity; compare_cases.
Qed.

Lemma min_step_choice (a v : JS.number) :
  JS.min_step a v = a \/ JS.min_step a v = v.
Proof.
  unfold JS.min_step.
  destruct a as [[]|[]| |[] ma ea], v as [[]|[]| |[] mv ev]; auto;
    match goal with |- context [if ?c then _ else _] => destruct c end; auto.
Qed.

Lemma min_step_le_l (a v : JS.number) :
  JS.is_nan a = false -> JS.is_nan v = false -> JS.le (JS.min_step a v) a = true.
Proof.
  intros Ha Hv. unfold JS.min_step.
  destruct a as [[]|[]| |[] ma ea] eqn:Ea, v as [[]|[]| |[] mv ev] eqn:Ev;
    try discriminate; try reflexivity;
    match goal with
    | |- context [if JS.lt ?x ?y then _ else _] =>
        destruct (JS.lt x y) eqn:Hlt;
          [apply lt_le; exact Hlt | apply le_refl; reflexivity]
    end.
Qed.

Lemma min_step_le_r (a v : JS.number) :
  JS.is_nan a = false -> JS.is_nan v = false -> JS.le (JS.min_step a v) v = true.
Proof.
  intros Ha Hv. unfold JS.min_step.
  destruct a as [[]|[]| |[] ma ea] eqn:Ea, v as [[]|[]| |[] mv ev] eqn:Ev;
    try discriminate; try reflexivity;
    match goal with
    | |- context [if JS.lt ?x ?y then _ else _] =>
        destruct (JS.lt x y) eqn:Hlt;
          [apply le_refl; reflexivity
          | apply not_gt_le; [reflexivity | reflexivity | exact Hlt]]
    end.
Qed.

Lemma min_step_not_nan (a v : JS.number) :
  JS.is_nan a = false -> JS.is_nan v = false -> JS.is_nan (JS.min_step a v) = false.
Proof. intros Ha Hv. destruct (min_step_choice a v) as [-> | ->]; assumption. Qed.

Lemma one_facts :
  JS.is_nan (JS.of_Z 1) = false /\ JS.is_nan (JS.of_Z 0) = false /\
  JS.gt (JS.of_Z 1) (JS.of_Z 0) = true /\
  JS.min_step (S754_infinity false) (JS.of_Z 1) = JS.of_Z 1 /\
  JS.le (S754_infinity false) (JS.of_Z 1) = false.
Proof. vm_compute. repeat split. Qed.

Lemma Math_min_three (a b : JS.number) :
  JS.is_nan a = false -> JS.is_nan b = false ->
  JS.Math_min [JS.of_Z 1; a; b] = JS.min_step (JS.min_step (JS.of_Z 1) a) b.
Proof.
  intros Ha Hb. destruct one_facts as (N1 & _ & _ & M1 & _).
  unfold JS.Math_min. cbn [existsb fold_left]. rewrite N1, Ha, Hb, M1. reflexivity.
Qed.

Lemma Math_min_nan (a b : JS.number) :
  JS.is_nan a = true \/ JS.is_nan b = true -> JS.Math_min [JS.of_Z 1; a; b] = JS.NaN.
Proof.
  intros H. unfold JS.Math_min. cbn [existsb].
  destruct H as [-> | ->]; rewrite ?orb_true_r; cbn [orb]; reflexivity.
Qed.

Lemma positive_le_one_finite (x : JS.number) :
  JS.gt x (JS.of_Z 0) = true -> JS.le x (JS.of_Z 1) = true -> JS.isFinite x = true.
Proof.
  destruct one_facts as (_ & _ & _ & _ & Linf).
  destruct x as [s|[]| |s m e]; intros Hg Hl; try reflexivity.
  - vm_compute in Hg. discriminate.
  - rewrite Linf in Hl. discriminate.
  - vm_compute in Hg. discriminate.
Qed.

(** With both ratios positive the minimum is taken; it is one of the
    three candidates and below each of them. *)
Lemma Math_min_positive (wr hr : JS.number) :
  JS.gt wr (JS.of_Z 0) = true -> JS.gt hr (JS.of_Z 0) = true ->
  let s := JS.Math_min [JS.of_Z 1; wr; hr] in
  (s = JS.of_Z 1 \/ s = wr \/ s = hr) /\
  JS.le s (JS.of_Z 1) = true /\ JS.le s wr = true /\ JS.le s hr = true /\
  JS.gt s (JS.of_Z 0) = true /\ JS.isFinite s = true.
Proof.
  intros Hw Hh. cbv zeta.
  destruct one_facts as (N1 & N0 & G1 & _ & _).
  destruct (gt_zero_guard _ Hw) as (_ & _ & Nw).
  destruct (gt_zero_guard _ Hh) as (_ & _ & Nh).
  rewrite (Math_min_three wr hr Nw Nh).
  set (a := JS.min_step (JS.of_Z 1) wr).
  assert (Na : JS.is_nan a = false) by (apply min_step_not_nan; [exact N1 | exact Nw]).
  assert (La1 : JS.le a (JS.of_Z 1) = true) by (apply min_step_le_l; [exact N1 | exact Nw]).
  assert (Law : JS.le a wr = true) by (apply min_step_le_r; [exact N1 | exact Nw]).
  pose proof (min_step_le_l a hr Na Nh) as Lba.
  pose proof (min_step_le_r a hr Na Nh) as Lbh.
  assert (Hchoice : JS.min_step a hr = JS.of_Z 1 \/ JS.min_step a hr = wr \/
                    JS.min_step a hr = hr).
  { destruct (min_step_choice a hr) as [-> | ->]; [|auto].
    subst a. destruct (min_step_choice (JS.of_Z 1) wr) as [-> | ->]; auto. }
  assert (Hpos : JS.gt (JS.min_step a hr) (JS.of_Z 0) = true).
  { destruct Hchoice as [-> | [-> | ->]]; [exact G1 | exact Hw | exact Hh]. }
  assert (L1 : JS.le (JS.min_step a hr) (JS.of_Z 1) = true) by (apply le_trans with a; assumption).
  repeat split; try assumption.
  - apply le_trans with a; assumption.
  - apply positive_le_one_finite; assumption.
Qed.

(** Without both ratios positive the minimum is NaN, or not above zero. *)
Lemma Math_min_not_positive (wr hr : JS.number) :
  JS.gt wr (JS.of_Z 0) && JS.gt hr (JS.of_Z 0) = false ->
  JS.isFinite (JS.Math_min [JS.of_Z 1; wr; hr])
  && JS.gt (JS.Math_min [JS.of_Z 1; wr; hr]) (JS.of_Z 0) = false.
Proof.
  intros H.
  destruct (JS.is_nan wr) eqn:Nw; [rewrite Math_min_nan by auto; reflexivity|].
  destruct (JS.is_nan hr) eqn:Nh; [rewrite Math_min_nan by auto; reflexivity|].
  destruct one_facts as (N1 & N0 & _ & _ & _).
  rewrite (Math_min_three wr hr Nw Nh).
  set (a := JS.min_step (JS.of_Z 1) wr).
  assert (Na : JS.is_nan a = false) by (apply min_step_not_nan; [exact N1 | exact Nw]).
  assert (Law : JS.le a wr = true) by (apply min_step_le_r; [exact N1 | exact Nw]).
  pose proof (min_step_le_l a hr Na Nh) as Lba.
  pose proof (min_step_le_r a hr Na Nh) as Lbh.
  assert (Hle0 : JS.le (JS.min_step a hr) (JS.of_Z 0) = true).
  { apply andb_false_iff in H. destruct H as [H | H].
    - apply le_trans with wr; [apply le_trans with a; assumption|].
      apply not_gt_le; [exact Nw | exact N0 | exact H].
    - apply le_trans with hr; [assumption|].
      apply not_gt_le; [exact Nh | exact N0 | exact H]. }
  rewrite (le_not_gt _ _ Hle0). apply andb_false_r.
Qed.

(** X9. The scale has exactly two regimes.  When the width ratio and
    the height ratio are both above zero, it is the minimum of 1 and the
    two ratios; in every other case -- a ratio that is zero, negative or
    NaN, as for a collapsed or unmeasurable stage -- it is 1. *)
Theorem scale_two_regimes (availableWidth availableHeight : JS.number) :
  let widthRatio := JS.div availableWidth (JS.of_Z PAGE_WIDTH) in
  let heightRatio := JS.div availableHeight (JS.of_Z PAGE_HEIGHT) in
  scaleFor availableWidth availableHeight
  = if JS.gt widthRatio (JS.of_Z 0) && JS.gt heightRatio (JS.of_Z 0)
    then JS.Math_min [JS.of_Z 1; widthRatio; heightRatio]
    else JS.of_Z 1.
Proof.
  cbv zeta. unfold scaleFor.
  set (wr := JS.div availableWidth (JS.of_Z PAGE_WIDTH)).
  set (hr := JS.div availableHeight (JS.of_Z PAGE_HEIGHT)).
  destruct (JS.gt wr (JS.of_Z 0) && JS.gt hr (JS.of_Z 0)) eqn:Hpos.
  - apply andb_true_iff in Hpos. destruct Hpos as [Hw Hh].
    destruct (Math_min_positive wr hr Hw Hh) as (_ & _ & _ & _ & Hgt & Hfin).
    rewrite Hgt, Hfin. reflexivity.
  - rewrite (Math_min_not_positive wr hr Hpos). reflexivity.
Qed.

(** X10. When both ratios are above zero the page fits: the scale is at
    most the width ratio, at most the height ratio and at most 1; it is
    one of these three numbers, so no larger scale would do; and it is
    finite and above zero. *)
Theorem scale_fits_both_ways (availableWidth availableHeight : JS.number) :
  let widthRatio := JS.div availableWidth (JS.of_Z PAGE_WIDTH) in
  let heightRatio := JS.div availableHeight (JS.of_Z PAGE_HEIGHT) in
  let scale := scaleFor availableWidth availableHeight in
  JS.gt widthRatio (JS.of_Z 0) = true ->
  JS.gt heightRatio (JS.of_Z 0) = true ->
  JS.le scale widthRatio = true /\
  JS.le scale heightRatio = true /\
  JS.le scale (JS.of_Z 1) = true /\
  (scale = JS.of_Z 1 \/ scale = widthRatio \/ scale = heightRatio) /\
  JS.gt scale (JS.of_Z 0) = true /\ JS.isFinite scale = true.
Proof.
  cbv zeta. intros Hw Hh. unfold scaleFor.
  set (wr := JS.div availableWidth (JS.of_Z PAGE_WIDTH)) in *.
  set (hr := JS.div availableHeight (JS.of_Z PAGE_HEIGHT)) in *.
  destruct (Math_min_positive wr hr Hw Hh) as (Hc & L1 & Lw & Lh & Hgt & Hfin).
  rewrite Hgt, Hfin. cbn [andb]. tauto.
Qed.

Lemma scale_fits_both_ways_witness :
  let scale := scaleFor (JS.of_Z 600) (JS.of_Z 500) in
  JS.le scale (JS.div (JS.of_Z 600) (JS.of_Z PAGE_WIDTH)) = true /\
  JS.le scale (JS.div (JS.of_Z 500) (JS.of_Z PAGE_HEIGHT)) = true /\
  JS.le scale (JS.of_Z 1) = true /\
  (scale = JS.of_Z 1 \/ scale = JS.div (JS.of_Z 600) (JS.of_Z PAGE_WIDTH) \/
   scale = JS.div (JS.of_Z 500) (JS.of_Z PAGE_HEIGHT)) /\
  JS.gt scale (JS.of_Z 0) = true /\ JS.isFinite scale = true.
Proof.
  apply (scale_fits_both_ways (JS.of_Z 600) (JS.of_Z 500)); vm_compute; reflexivity.
Defined.

Lemma scaleFor_usable (W H : JS.number) :
  JS.isFinite (scaleFor W H) = true /\ JS.gt (scaleFor W H) (JS.of_Z 0) = true.
Proof.
  unfold scaleFor.
  destruct (JS.isFinite _ && JS.gt _ (JS.of_Z 0)) eqn:E.
  - apply andb_true_iff in E. exact E.
  - split; vm_compute; reflexivity.
Qed.

(** X11. The page scale is always usable in [transform: scale(...)]:
    from the initial 1 and after any sequence of resize observations --
    mounted or not, with any measurements, NaN and infinities included --
    it is a finite number above zero and at most 1. *)
Theorem page_scale_always_usable (observations : list (option Stage * bool)) :
  JS.isFinite (run_updateScale observations) = true /\
  JS.gt (run_updateScale observations) (JS.of_Z 0) = true /\
  JS.le (run_updateScale observations) (JS.of_Z 1) = true.
Proof.
  unfold run_updateScale.
  assert (Gen : forall s,
             JS.isFinite s = true /\ JS.gt s (JS.of_Z 0) = true ->
             JS.isFinite (fold_left (fun s o => updateScale (fst o) (snd o) s)
                                    observations s) = true /\
             JS.gt (fold_left (fun s o => updateScale (fst o) (snd o) s)
                              observations s) (JS.of_Z 0) = true).
  { induction observations as [|[stage page] obs IH]; intros s Hs; [exact Hs|].
    cbn [fold_left fst snd]. apply IH. unfold updateScale.
    destruct stage as [st|]; [destruct page|]; try exact Hs. apply scaleFor_usable. }
  destruct (Gen (JS.of_Z 1)) as [Hf Hg]; [split; vm_compute; reflexivity|].
  split; [exact Hf|]. split; [exact Hg|]. apply run_updateScale_le_one.
Qed.

(** ** The color picker: debounced commits *)

Ltac picker_cbn :=
  repeat (unfold color_step, pending_color in *;
          cbn [color_step handleShadowColorChange flushPendingColor scheduleHistoryUpdate
               clear_pending setShadowColor setTimeout set_ref clearTimeout commit_color
               timeout_callback
               historyTimeoutRef timers shadowColor colorHistory next_timer
               filter find fst snd negb option_map app] in *;
          rewrite ?Pos.eqb_refl in *).

Lemma commit_head (c : string) (h : list string) :
  hd DEFAULT_SHADOW_COLOR (commitColorToHistory c h) = c.
Proof. rewrite commit_shape. reflexivity. Qed.

Lemma picker_settled_step (st : ColorState) (ev : color_event) :
  picker_settled st -> picker_settled (color_step st ev).
Proof.
  unfold picker_settled. destruct st as [sc h ref ts next].
  cbn [historyTimeoutRef timers shadowColor colorHistory].
  intros H. destruct ref as [id|]; [subst ts | destruct H as [-> H]].
  - destruct ev as [c | c | | fired]; picker_cbn;
      try reflexivity; try (split; [reflexivity | apply commit_head]).
    destruct (Pos.eqb_spec id fired) as [<- | Hne]; picker_cbn;
      [split; [reflexivity | apply commit_head] | reflexivity].
  - destruct ev as [c | c | | fired]; picker_cbn;
      try reflexivity; try (split; [reflexivity | apply commit_head]).
    split; [reflexivity | exact H].
Qed.

Lemma picker_settled_run (evs : list color_event) :
  forall st, picker_settled st -> picker_settled (fold_left color_step evs st).
Proof.
  induction evs as [|ev evs IH]; intros st H; [exact H|].
  cbn [fold_left]. apply IH, picker_settled_step, H.
Qed.

Lemma picker_settled_reachable (initial : list string) (evs : list color_event) :
  picker_settled (run_colors initial evs).
Proof.
  apply picker_settled_run. unfold picker_settled. cbn. auto.
Qed.


(** X13. A chip click and a blur commit at once and cancel the pending
    timer for good: in any reachable state they put the clicked (for a
    blur: the selected) color in front of the history, leave no timer
    pending, and no timer callback changes the state afterwards. *)
Theorem picker_commits_now (initial : list string) (evs : list color_event) :
  let st := run_colors initial evs in
  (forall c,
      let st' := color_step st (ChipClick c) in
      shadowColor st' = c /\
      colorHistory st' = commitColorToHistory c (colorHistory st) /\
      historyTimeoutRef st' = None /\ timers st' = [] /\
      forall id, color_step st' (TimeoutFires id) = st') /\
  (let st' := color_step st InputBlur in
   shadowColor st' = shadowColor st /\
   colorHistory st' = commitColorToHistory (shadowColor st) (colorHistory st) /\
   historyTimeoutRef st' = None /\ timers st' = [] /\
   forall id, color_step st' (TimeoutFires id) = st').
Proof.
  cbv zeta. pose proof (picker_settled_reachable initial evs) as H.
  unfold picker_settled in H.
  destruct (run_colors initial evs) as [sc h ref ts next].
  cbn [historyTimeoutRef timers shadowColor colorHistory] in H.
  destruct ref as [id|]; [subst ts | destruct H as [-> H]];
    (split; [intros c|]); picker_cbn; repeat (split; [reflexivity|]);
    intros fired; reflexivity.
Qed.

(** A burst of input changes, from a state that satisfies the
    discipline. *)
Lemma burst_pending (colors : list string) :
  forall (st : ColorState) (c : string),
    picker_settled st ->
    let st' := fold_left color_step (map InputChange (colors ++ [c])) st in
    exists id,
      historyTimeoutRef st' = Some id /\
      timers st' = [(id, c)] /\
      shadowColor st' = c /\
      colorHistory st' = colorHistory st.
Proof.
  induction colors as [|c0 colors IH]; intros st c Hst; cbv zeta.
  - cbn [List.app map fold_left]. unfold picker_settled in Hst.
    destruct st as [sc h ref ts next].
    cbn [historyTimeoutRef timers shadowColor colorHistory] in Hst.
    destruct ref as [id|]; [subst ts | destruct Hst as [-> Hst]]; picker_cbn;
      eexists; repeat split.
  - cbn [List.app map fold_left].
    destruct (IH (color_step st (InputChange c0)) c
                 (picker_settled_step st (InputChange c0) Hst))
      as (id & Href & Htim & Hsc & Hh).
    exists id. repeat split; try assumption.
    rewrite Hh. destruct st as [sc h ref ts next]. destruct ref; reflexivity.
Qed.

(** X14. The debounce coalesces a burst: after any number of input
    changes in a row, ending with the color [c], the history is still
    what it was before the burst and exactly one timer is pending; when
    it fires, [c] alone is committed -- none of the colors passed
    through on the way -- and no other timer id has any effect. *)
Theorem picker_burst_commits_last
    (initial : list string) (evs : list color_event)
    (passed : list string) (c : string) :
  let st := run_colors initial evs in
  let st' := fold_left color_step (map InputChange (passed ++ [c])) st in
  exists id,
    historyTimeoutRef st' = Some id /\
    colorHistory st' = colorHistory st /\
    (forall other, other <> id -> color_step st' (TimeoutFires other) = st') /\
    let st'' := color_step st' (TimeoutFires id) in
    colorHistory st'' = commitColorToHistory c (colorHistory st) /\
    shadowColor st'' = c /\
    historyTimeoutRef st'' = None /\ timers st'' = [].
Proof.
  cbv zeta.
  destruct (burst_pending passed (run_colors initial evs) c
                          (picker_settled_reachable initial evs))
    as (id & Href & Htim & Hsc & Hh).
  destruct (fold_left color_step (map InputChange (passed ++ [c]))
                      (run_colors initial evs)) as [sc h ref ts next].
  cbn [historyTimeoutRef timers shadowColor colorHistory] in *. subst sc ref ts.
  exists id. split; [reflexivity|]. split; [exact Hh|]. split.
  - intros other Hne. picker_cbn.
    replace (Pos.eqb id other) with false; [reflexivity|].
    symmetry. apply Pos.eqb_neq. congruence.
  - picker_cbn. rewrite Hh. repeat split.
Qed.

Lemma color_step_history (st : ColorState) (ev : color_event) :
  colorHistory (color_step st ev) = colorHistory st \/
  exists c, colorHistory (color_step st ev) = commitColorToHistory c (colorHistory st).
Proof.
  destruct st as [sc h ref ts next].
  destruct ev as [c | c | | fired].
  - left. destruct ref; reflexivity.
  - right. exists c. destruct ref; reflexivity.
  - right. exists sc. destruct ref; reflexivity.
  - cbn [color_step].
    destruct (pending_color fired _) as [c|]; [right; exists c | left]; reflexivity.
Qed.

Lemma run_history (evs : list color_event) :
  forall st, exists colors,
    colorHistory (fold_left color_step evs st) = commit_all colors (colorHistory st).
Proof.
  induction evs as [|ev evs IH]; intros st.
  - exists []. reflexivity.
  - cbn [fold_left]. destruct (IH (color_step st ev)) as [colors Hc].
    destruct (color_step_history st ev) as [Hsame | [c Hcommit]].
    + exists colors. rewrite Hc, Hsame. reflexivity.
    + exists (c :: colors). rewrite Hc, Hcommit. reflexivity.
Qed.

(** X15. The picker changes the history by commits only: every
    reachable history is the loaded one after some sequence of commits.
    So a loaded history without duplicates and within the cap stays so
    under every use of the picker, and a history that is not the loaded
    one any more never exceeds eight entries. *)
Theorem picker_history_by_commits (initial : list string) (evs : list color_event) :
  (exists colors,
      colorHistory (run_colors initial evs) = commit_all colors initial) /\
  (history_ok initial -> history_ok (colorHistory (run_colors initial evs))) /\
  (colorHistory (run_colors initial evs) = initial \/
   (List.length (colorHistory (run_colors initial evs)) <= MAX_COLOR_HISTORY)%nat).
Proof.
  destruct (run_history evs (initial_color_state initial)) as [colors Hc].
  cbn [initial_color_state colorHistory] in Hc. fold (run_colors initial evs) in Hc.
  split; [exists colors; exact Hc|]. rewrite Hc. split.
  - apply commit_all_ok.
  - destruct colors as [|c colors]; [left; reflexivity | right].
    apply commit_all_capped. discriminate.
Qed.

Lemma commit_all_nodup (colors : list string) :
  forall h, NoDup h -> NoDup (commit_all colors h).
Proof.
  unfold commit_all. induction colors as [|c colors IH]; intros h Hh; [exact Hh|].
  cbn [fold_left]. apply IH. apply (commit_ok c h Hh).
Qed.

Lemma picker_history_nodup (initial : list string) (evs : list color_event) :
  NoDup initial -> NoDup (colorHistory (run_colors initial evs)).
Proof.
  intros Hnd. destruct (run_history evs (initial_color_state initial)) as [colors Hc].
  cbn [initial_color_state colorHistory] in Hc. fold (run_colors initial evs) in Hc.
  rewrite Hc. apply commit_all_nodup. exact Hnd.
Qed.

Lemma inactive_rest (c : string) (rest : list string) :
  ~ In c rest -> map (fun color => String.eqb color c) rest = repeat false (List.length rest).
Proof.
  induction rest as [|x rest IH]; intros Hnot; [reflexivity|].
  cbn [map List.length repeat]. f_equal.
  - apply String.eqb_neq. intros ->. apply Hnot. left. reflexivity.
  - apply IH. intros Hin. apply Hnot. right. exact Hin.
Qed.

(** X16. The chips mark the selection: from a loaded history without
    duplicates, of any length, whenever no commit is pending and the
    chips are shown (more than one color in the history), there is one
    chip per history entry, in order, and exactly the first one is
    active -- it is the selected color. *)
Theorem chips_mark_selected (initial : list string) (evs : list color_event) :
  let st := run_colors initial evs in
  NoDup initial ->
  historyTimeoutRef st = None ->
  (1 < List.length (colorHistory st))%nat ->
  map fst (color_chips st) = colorHistory st /\
  map snd (color_chips st)
  = true :: repeat false (List.length (colorHistory st) - 1) /\
  hd DEFAULT_SHADOW_COLOR (colorHistory st) = shadowColor st.
Proof.
  cbv zeta. intros Hnd Href Hlen.
  pose proof (picker_settled_reachable initial evs) as Hinv.
  pose proof (picker_history_nodup initial evs Hnd) as Hnodup.
  unfold picker_settled in Hinv. rewrite Href in Hinv. destruct Hinv as [_ Hhead].
  unfold color_chips.
  replace (1 <? List.length (colorHistory (run_colors initial evs)))%nat with true
    by (symmetry; apply Nat.ltb_lt; exact Hlen).
  destruct (colorHistory (run_colors initial evs)) as [|c rest] eqn:Eh;
    [cbn [List.length] in Hlen; lia|].
  cbn [hd] in Hhead. rewrite <- Hhead.
  inversion Hnodup as [|c' rest' Hnot Hrest]; subst.
  split; [|split; [|reflexivity]].
  - rewrite map_map. cbn [fst]. apply map_id.
  - rewrite map_map. cbn [snd map List.length]. rewrite String.eqb_refl.
    f_equal. replace (S (List.length rest) - 1)%nat with (List.length rest) by lia.
    apply inactive_rest. exact Hnot.
Qed.

Lemma chips_mark_selected_witness :
  let st := run_colors ["#ff0000"; "#57e8ff"] [InputChange "#123456"; ChipClick "#57e8ff"] in
  map fst (color_chips st) = colorHistory st /\
  map snd (color_chips st)
  = true :: repeat false (List.length (colorHistory st) - 1) /\
  hd DEFAULT_SHADOW_COLOR (colorHistory st) = shadowColor st.
Proof.
  cbv zeta.
  apply (chips_mark_selected ["#ff0000"; "#57e8ff"]
                             [InputChange "#123456"; ChipClick "#57e8ff"]).
  - repeat constructor; cbn; intuition discriminate.
  - vm_compute. reflexivity.
  - vm_compute. lia.
Defined.

(** ** The color history across a reload *)

Lemma filter_strings_map (l : list string) : filter_strings (map JString l) = l.
Proof. induction l as [|c l IH]; cbn [map filter_strings]; [reflexivity | rewrite IH; reflexivity]. Qed.

(** X17. What the persistence effect writes is what the next start
    reads: if [JSON.parse] inverts [JSON.stringify] on the history, then
    after [localStorage.setItem] the loader returns that history, in
    order, logging nothing -- or the default color alone when the
    history was empty -- and the color selected at start is the head of
    the stored history. *)
Theorem history_survives_reload
    (JSON_stringify : list string -> string) (parse : string -> completion json)
    (store : Store) (colorHistory0 : list string) (log : Console) :
  JSON_stringify colorHistory0 <> "" ->
  parse (JSON_stringify colorHistory0) = Normal (JArray (map JString colorHistory0)) ->
  let host := host_on (persist JSON_stringify colorHistory0 store) parse in
  let loaded := match colorHistory0 with
                | [] => [DEFAULT_SHADOW_COLOR]
                | _ => colorHistory0
                end in
  loadColorHistory host log = (Normal loaded, log) /\
  shadowColor (initial_color_state loaded) = hd DEFAULT_SHADOW_COLOR colorHistory0.
Proof.
  intros Hne Hparse. cbv zeta. split.
  - unfold loadColorHistory, host_on, persist, setItem.
    cbn [window localStorage_getItem JSON_parse].
    rewrite String.eqb_refl.
    unfold try_catch, bind, lift, ret.
    destruct (JSON_stringify colorHistory0) as [|a text] eqn:Etext; [contradiction|].
    rewrite Hparse.
    destruct colorHistory0 as [|c rest]; [reflexivity|].
    cbn [map]. change (JString c :: map JString rest) with (map JString (c :: rest)).
    rewrite filter_strings_map. reflexivity.
  - destruct colorHistory0; reflexivity.
Qed.

Lemma history_survives_reload_witness :
  let colors := ["#ff0000"; "#57e8ff"] in
  let parse := fun text => if String.eqb text (stringify_colors colors)
                           then Normal (JArray (map JString colors))
                           else Throw (Error "SyntaxError") in
  loadColorHistory (host_on (persist stringify_colors colors (fun _ => None)) parse) []
  = (Normal colors, []) /\
  shadowColor (initial_color_state colors) = "#ff0000".
Proof.
  cbv zeta.
  apply (history_survives_reload
           stringify_colors
           (fun text => if String.eqb text (stringify_colors ["#ff0000"; "#57e8ff"])
                        then Normal (JArray (map JString ["#ff0000"; "#57e8ff"]))
                        else Throw (Error "SyntaxError"))
           (fun _ => None) ["#ff0000"; "#57e8ff"] []).
  - vm_compute. discriminate.
  - vm_compute. reflexivity.
Defined.

(** ** The export: file names *)

Lemma string_app_inv_tail (s1 s2 t : string) :
  String.length s1 = String.length s2 -> s1 ++ t = s2 ++ t -> s1 = s2.
Proof.
  revert s2. induction s1 as [|a s1 IH]; intros [|b s2] Hlen Heq;
    cbn [String.length] in Hlen; try discriminate; [reflexivity|].
  cbn [append] in Heq. injection Heq as -> Heq. f_equal. apply IH; [lia | exact Heq].
Qed.

Lemma download_name_timestamp (d1 d2 : Date) :
  download_name d1 = download_name d2 <-> timestamp d1 = timestamp d2.
Proof.
  unfold download_name. split; [|intros ->; reflexivity].
  cbn [append]. intros [= H].
  apply (string_app_inv_tail _ _ ".png"); [|exact H].
  rewrite !timestamp_length. reflexivity.
Qed.

(** X18. Between the years 0 and 9999 two exports get the same file name
    exactly when they happen in the same minute: seconds and milliseconds
    never reach the name, and any difference in year, month, day, hour or
    minute does. *)
Theorem download_name_same_minute (d1 d2 : Date) :
  valid_date d1 = true -> valid_date d2 = true ->
  0 <= year d1 <= 9999 -> 0 <= year d2 <= 9999 ->
  (download_name d1 = download_name d2 <-> same_minute d1 d2).
Proof.
  intros Hv1 Hv2 Hy1 Hy2. rewrite download_name_timestamp.
  rewrite !timestamp_four_digit_year by assumption.
  split.
  - intros Heq.
    pose proof (stamp_digits_value d1 Hv1 Hy1) as V1.
    pose proof (stamp_digits_value d2 Hv2 Hy2) as V2.
    rewrite Heq, V2 in V1. clear Heq V2.
    unfold valid_date in Hv1, Hv2.
    repeat match goal with
           | H : _ && _ = true |- _ => apply andb_true_iff in H; destruct H
           | H : (_ <=? _) = true |- _ => apply Z.leb_le in H
           end.
    unfold same_minute. lia.
  - unfold same_minute, stamp_digits. intros (-> & -> & -> & -> & ->). reflexivity.
Qed.

Lemma download_name_same_minute_witness :
  let later := {| year := 2026; month := 11; day := 2;
                  hours := 9; minutes := 5; seconds := 59; milliseconds := 999 |} in
  (download_name sample_date = download_name later <-> same_minute sample_date later) /\
  download_name later = "menu_202611020905.png".
Proof.
  split; [|vm_compute; reflexivity].
  apply (download_name_same_minute sample_date); vm_compute; try reflexivity;
    split; discriminate.
Defined.
